(** * git_sort.py: sorting lines by the upstream order of their commits

    A shallow embedding of [git_sort.py] and the properties of its head
    resolver, history builder, history cache, ordering generator and
    command-line driver.

    Python values are modelled as follows.
    - [str] (Python 2 byte strings) is [string]; a list is [list]; a tuple
      is a pair.
    - A [dict] is a [gmap]; [d.values()] enumerates the map in the order of
      [map_to_list] (the iteration order of a Python 2 dict is unspecified).
    - An exception is a value of [exn]; code that can raise returns
      [res A = exn + A].
    - The shelve cache, standard output and standard error are fields of
      [World], threaded through the state-and-exception monad [M].
    - The repository ([pygit2]) and the [git] subprocesses are parameters of
      the development: [revparse_single], the output and exit status of
      [git config], and [Popen]. *)

From stdpp Require Import gmap strings list fin_maps pretty.
From Stdlib Require Import ZArith Ascii.


(** ** Python string primitives *)

Module Py.

Definition chr (n : nat) : string := String (Ascii.ascii_of_nat n) EmptyString.

(** The characters written as escapes in the source. *)
Definition nl : string := chr 10.
Definition dquote : string := chr 34.

(** [string.whitespace] for Python 2 byte strings: space, tab, newline,
    vertical tab, form feed and carriage return. *)
Definition isspace (c : Ascii.ascii) : bool :=
  let n := Ascii.nat_of_ascii c in
  (Nat.eqb n 32 || (Nat.leb 9 n && Nat.leb n 13))%bool.

(** [s.lstrip()] *)
Fixpoint lstrip (s : string) : string :=
  match s with
  | EmptyString => EmptyString
  | String c s' => if isspace c then lstrip s' else s
  end.

(** [s.rstrip()] *)
Fixpoint rstrip (s : string) : string :=
  match s with
  | EmptyString => EmptyString
  | String c s' =>
      match rstrip s' with
      | EmptyString => if isspace c then EmptyString else String c EmptyString
      | r => String c r
      end
  end.

(** [s.strip()] *)
Definition strip (s : string) : string := rstrip (lstrip s).

(** The longest prefix without whitespace, and what follows it. *)
Fixpoint span_word (s : string) : string * string :=
  match s with
  | EmptyString => (EmptyString, EmptyString)
  | String c s' =>
      if isspace c then (EmptyString, s)
      else let '(w, r) := span_word s' in (String c w, r)
  end.

(** [s.split(None, 1)]: at most one split, on a run of whitespace; leading
    whitespace is dropped, and so is the whitespace between the first word
    and the rest. No word at all gives the empty list. *)
Definition split_ws1 (s : string) : list string :=
  match lstrip s with
  | EmptyString => []
  | s' =>
      let '(w, r) := span_word s' in
      match lstrip r with
      | EmptyString => [w]
      | r' => [w; r']
      end
  end.

(** [s.split(sep)] for a one-character separator: every occurrence splits,
    and the result is never empty. *)
Fixpoint split_char (sep : Ascii.ascii) (s : string) : list string :=
  match s with
  | EmptyString => [EmptyString]
  | String c s' =>
      match split_char sep s' with
      | w :: ws =>
          if Ascii.eqb c sep then EmptyString :: w :: ws
          else String c w :: ws
      | [] => [] (* unreachable: the result is never empty *)
      end
  end.

(** [sep.join(l)] *)
Definition join (sep : string) (l : list string) : string := String.concat sep l.

End Py.

(** ** Exceptions *)

Inductive exn : Type :=
  | KeyError
  | ValueError
  | IndexError
  | Exception (msg : string)
  | CalledProcessError (returncode : Z)
  | SystemExit (code : Z).

Definition res (A : Type) : Type := exn + A.

Definition ok {A} (a : A) : res A := inr a.
Definition raise {A} (e : exn) : res A := inl e.

Definition res_bind {A B} (m : res A) (k : A → res B) : res B :=
  match m with
  | inl e => inl e
  | inr a => k a
  end.

Declare Scope res_scope.
Delimit Scope res_scope with res.
Notation "'let!' x ':=' m 'in' k" := (res_bind m (λ x, k))
  (at level 10, x name, m at level 100, k at level 200) : res_scope.

(** [l[i]] on a list: [IndexError] out of range. *)
Definition index {A} (l : list A) (i : nat) : res A :=
  match l !! i with
  | Some a => ok a
  | None => raise IndexError
  end.

(** ** Data *)

(** A head: [(head name, sha1)]. *)
Definition Head : Type := string * string.

(** [history[head name][]]. *)
Abbreviation History := (gmap string (list string)).

(** What [repo.revparse_single(spec)] does: it returns a commit, whose id is
    kept, or raises [KeyError] (nothing of that name) or [ValueError] (not a
    revision specification). *)
Inductive revparse : Type :=
  | Commit (id : string)
  | RaisesKeyError
  | RaisesValueError.

(** The catalog, lines 23-39. *)
Definition head_names : list (string * list string) :=
  [ ("linux.git",
      [ "git://git.kernel.org/pub/scm/linux/kernel/git/torvalds/linux.git";
        "https://git.kernel.org/pub/scm/linux/kernel/git/torvalds/linux.git";
        "https://kernel.googlesource.com/pub/scm/linux/kernel/git/torvalds/linux.git" ]);
    ("net",
      [ "git://git.kernel.org/pub/scm/linux/kernel/git/davem/net.git";
        "https://git.kernel.org/pub/scm/linux/kernel/git/davem/net.git";
        "https://kernel.googlesource.com/pub/scm/linux/kernel/git/davem/net.git" ]);
    ("net-next",
      [ "git://git.kernel.org/pub/scm/linux/kernel/git/davem/net-next.git";
        "https://git.kernel.org/pub/scm/linux/kernel/git/davem/net-next.git";
        "https://kernel.googlesource.com/pub/scm/linux/kernel/git/davem/net-next.git" ]) ].

(** ** The head resolver, [_get_heads] *)

Section GetHeads.

(** [repo.revparse_single]. *)
Variable revparse_single : string → revparse.

(** Lines 49-52, one line of [git config --get-regexp]:
    [name, url = line.split(None, 1)] raises [ValueError] unless the split
    has two parts, [name.split(".")[1]] raises [IndexError] without a dot;
    then [remotes[url] = name]. *)
Definition add_remote (remotes : gmap string string) (line : string)
  : res (gmap string string) :=
  match Py.split_ws1 line with
  | [name; url] =>
      (let! name' := index (Py.split_char "."%char name) 1 in
       ok (<[url := name']> remotes))%res
  | _ => raise ValueError
  end.

Fixpoint read_remotes (config : list string) (remotes : gmap string string)
  : res (gmap string string) :=
  match config with
  | [] => ok remotes
  | line :: config' =>
      (let! remotes' := add_remote remotes line in
       read_remotes config' remotes')%res
  end.

Definition no_master (rev : string) : string :=
  "Could not read revision " +:+ Py.dquote +:+ rev +:+ Py.dquote +:+
  ", does that remote not have a master branch?".

(** Lines 55-64, the loop over the urls of one catalog entry. The
    [continue] that ends the body of the [if] goes on with the next url of
    the same entry. *)
Fixpoint match_urls (remotes : gmap string string) (head_name : string)
    (urls : list string) (heads : list Head) : res (list Head) :=
  match urls with
  | [] => ok heads
  | url :: urls' =>
      match remotes !! url with
      | Some remote =>
          let rev := remote +:+ "/master" in
          match revparse_single rev with
          | Commit id =>
              match_urls remotes head_name urls' (heads ++ [(head_name, id)])
          | RaisesKeyError => raise (Exception (no_master rev))
          | RaisesValueError => raise ValueError
          end
      | None => match_urls remotes head_name urls' heads
      end
  end.

(** Lines 54-64, the loop over the catalog. *)
Fixpoint match_heads (remotes : gmap string string)
    (catalog : list (string * list string)) (heads : list Head)
  : res (list Head) :=
  match catalog with
  | [] => ok heads
  | (head_name, urls) :: catalog' =>
      (let! heads' := match_urls remotes head_name urls heads in
       match_heads remotes catalog' heads')%res
  end.

(** [heads[0][0] != head_names[0][0]], for a list that is not empty. *)
Definition first_name_differs (heads : list Head) : bool :=
  match heads, head_names with
  | (n, _) :: _, (n0, _) :: _ => bool_decide (n ≠ n0)
  | _, _ => true
  end.

(** Lines 66-71. *)
Definition fallback (heads : list Head) : res (list Head) :=
  if (bool_decide (heads = []) || first_name_differs heads)%bool then
    match revparse_single "HEAD" with
    | Commit id => ok [("HEAD", id)]
    | RaisesKeyError => raise KeyError
    | RaisesValueError => raise ValueError
    end
  else ok heads.

(** [subprocess.check_output(args)], on what the command printed, split in
    lines, and the status it exited with: a status other than 0 raises
    [CalledProcessError]. *)
Definition check_output (run : list string * Z) : res (list string) :=
  if bool_decide (run.2 ≠ 0%Z) then raise (CalledProcessError run.2)
  else ok run.1.

(** [git_config] is the run of
    [git config --get-regexp ^remote\..+\.url$]: the lines it prints and
    its exit status (git exits with 1 when no remote has a url). *)
Definition _get_heads (git_config : list string * Z) : res (list Head) :=
  (let! lines := check_output git_config in
   let! remotes := read_remotes lines ∅ in
   let! heads := match_heads remotes head_names [] in
   fallback heads)%res.

End GetHeads.

(** ** The history builder, [_rebuild_history] *)

Section RebuildHistory.

(** [subprocess.Popen(argv, stdout=PIPE, stderr=STDOUT)], reduced to what
    the source reads of it: the lines of [sp.stdout.readlines()] and
    [sp.returncode]. *)
Variable Popen : list string → list string * Z.

(** Line 77. *)
Definition git_log_args : list string :=
  ["git"; "log"; "--topo-order"; "--reverse"; "--pretty=tformat:%H"].

(** ["^%s" % (rev,)] *)
Definition caret (rev : string) : string := "^" +:+ rev.

Definition not_unique (head_name : string) : string :=
  "head name " +:+ Py.dquote +:+ head_name +:+ Py.dquote +:+ " is not unique.".

Definition git_log_failed (out : list string) : string :=
  "git log exited with an error:" +:+ Py.nl +:+ Py.join Py.nl out.

(** Lines 78-93, with [processed] and [history] as they stand when the
    loop reaches [heads]. *)
Fixpoint rebuild_loop (heads : list Head) (processed : list string)
    (history : History) : res History :=
  match heads with
  | [] => ok history
  | (head_name, rev) :: heads' =>
      let '(out, returncode) := Popen (git_log_args ++ processed ++ [rev]) in
      if bool_decide (is_Some (history !! head_name)) then
        raise (Exception (not_unique head_name))
      else
        let commits := Py.strip <$> out in
        let history' := <[head_name := commits]> history in
        if bool_decide (returncode ≠ 0%Z) then
          raise (Exception (git_log_failed commits))
        else
          rebuild_loop heads' (processed ++ [caret rev]) history'
  end.

Definition _rebuild_history (heads : list Head) : res History :=
  rebuild_loop heads [] ∅.

End RebuildHistory.

(** ** The world: the shelve cache and the two output streams *)

(** The cache of [_get_cache()], with the two keys the program uses; a key
    that was never stored is [None]. *)
Record Cache : Type := mkCache {
  heads_key : option (list Head);
  history_key : option History
}.

(** [rebuilds] counts the calls of [_rebuild_history]; the program does not
    read it. *)
Record World : Type := mkWorld {
  cache : Cache;
  stdout : string;
  stderr : string;
  rebuilds : nat
}.

Definition M (A : Type) : Type := World → res A * World.

Definition ret {A} (a : A) : M A := λ w, (ok a, w).
Definition throw {A} (e : exn) : M A := λ w, (raise e, w).
Definition lift {A} (r : res A) : M A := λ w, (r, w).

Definition bind {A B} (m : M A) (k : A → M B) : M B :=
  λ w, match m w with
       | (inl e, w') => (inl e, w')
       | (inr a, w') => k a w'
       end.

Declare Scope M_scope.
Delimit Scope M_scope with M.
Notation "'let!' x ':=' m 'in' k" := (bind m (λ x, k))
  (at level 10, x name, m at level 100, k at level 200) : M_scope.
Notation "m1 ;; m2" := (bind m1 (λ _, m2))
  (at level 100, right associativity) : M_scope.

(** [try: m except KeyError: handler] *)
Definition except_KeyError {A} (m handler : M A) : M A :=
  λ w, match m w with
       | (inl KeyError, w') => handler w'
       | r => r
       end.

(** [cache["heads"]] and [cache["history"]], read and written. *)
Definition cache_get_heads : M (list Head) :=
  λ w, (match heads_key (cache w) with Some h => ok h | None => raise KeyError end, w).

Definition cache_get_history : M History :=
  λ w, (match history_key (cache w) with Some h => ok h | None => raise KeyError end, w).

Definition set_cache (c : Cache) (w : World) : World :=
  mkWorld c (stdout w) (stderr w) (rebuilds w).

Definition cache_set_heads (heads : list Head) : M unit :=
  λ w, (ok (), set_cache (mkCache (Some heads) (history_key (cache w))) w).

Definition cache_set_history (history : History) : M unit :=
  λ w, (ok (), set_cache (mkCache (heads_key (cache w)) (Some history)) w).

(** [print(s, end=e)] and [print(s, end=e, file=sys.stderr)]. *)
Definition print (s e : string) : M unit :=
  λ w, (ok (), mkWorld (cache w) (stdout w +:+ s +:+ e) (stderr w) (rebuilds w)).

Definition print_stderr (s e : string) : M unit :=
  λ w, (ok (), mkWorld (cache w) (stdout w) (stderr w +:+ s +:+ e) (rebuilds w)).

(** [sys.exit(code)] *)
Definition sys_exit {A} (code : Z) : M A := throw (SystemExit code).

(** The status the process ends with: 0 at the end of the script, the
    argument of [sys.exit], 1 for an exception nobody caught. *)
Definition exit_status {A} (r : res A) : Z :=
  match r with
  | inr _ => 0
  | inl (SystemExit code) => code
  | inl _ => 1
  end.

(** ** The history cache, the generator and the script *)

Record SortedEntry (V : Type) : Type := mkSortedEntry {
  head_name : string;
  value : V
}.
Arguments mkSortedEntry {V} _ _.
Arguments head_name {V} _.
Arguments value {V} _.

Section Program.

Variable revparse_single : string → revparse.
Variable git_config : list string * Z.
Variable Popen : list string → list string * Z.
(** [pprint.pformat], on what the script prints with it. *)
Variable pformat : option (list Head) → string.

(** [c_heads = cache["heads"]], [None] on [KeyError] (lines 111-114 and
    167-170). *)
Definition cached_heads : M (option (list Head)) :=
  except_KeyError (let! h := cache_get_heads in ret (Some h))%M (ret None).

(** The call on line 117. *)
Definition rebuild (heads : list Head) : M History :=
  λ w, (_rebuild_history Popen heads,
        mkWorld (cache w) (stdout w) (stderr w) (S (rebuilds w))).

(** Lines 102-124. *)
Definition _get_history (heads : list Head) : M History :=
  (let! c_heads := cached_heads in
   if bool_decide (c_heads ≠ Some heads) then
     let! history := rebuild heads in
     cache_set_heads heads ;;
     cache_set_history history ;;
     ret history
   else
     cache_get_history)%M.

(** Lines 139-143 for one head: each commit of its list is popped from
    the mapping, and yielded when it was there. An element of the result
    is the commit popped with the entry yielded for it. *)
Fixpoint sort_commits {V} (name : string) (commits : list string)
    (mapping : gmap string V)
  : list (string * SortedEntry V) * gmap string V :=
  match commits with
  | [] => ([], mapping)
  | commit :: commits' =>
      match mapping !! commit with
      | Some v =>
          let '(out, mapping') :=
            sort_commits name commits' (delete commit mapping) in
          ((commit, mkSortedEntry name v) :: out, mapping')
      | None => sort_commits name commits' mapping
      end
  end.

(** Lines 138-143: what is yielded, the mapping that is left, and the
    exception that ended the generator, if one did ([history[head_name]]
    raises [KeyError] for a name without history). *)
Fixpoint sort_heads {V} (heads : list Head) (history : History)
    (mapping : gmap string V)
  : list (string * SortedEntry V) * gmap string V * option exn :=
  match heads with
  | [] => ([], mapping, None)
  | (name, _) :: heads' =>
      match history !! name with
      | None => ([], mapping, Some KeyError)
      | Some commits =>
          let '(out1, mapping1) := sort_commits name commits mapping in
          let '(out2, mapping2, e) := sort_heads heads' history mapping1 in
          (out1 ++ out2, mapping2, e)
      end
  end.

(** Lines 135-145, run to its end: the entries yielded and the mapping
    as the generator leaves it. *)
Definition git_sort {V} (mapping : gmap string V)
  : M (list (SortedEntry V) * gmap string V) :=
  (let! heads := lift (_get_heads revparse_single git_config) in
   let! history := _get_history heads in
   match sort_heads heads history mapping with
   | (out, mapping', None) => ret (out.*2, mapping')
   | (_, _, Some e) => throw e
   end)%M.

(** [line.strip().split(None, 1)[0]] *)
Definition first_word (line : string) : res string :=
  index (Py.split_ws1 (Py.strip line)) 0.

Definition no_hash (num : nat) (line : string) : string :=
  "Error: did not find a commit hash on line " +:+ pretty num +:+ ":" +:+
  Py.nl +:+ Py.strip line.

Definition not_in_repo (num : nat) (line : string) : string :=
  "Error: commit hash on line " +:+ pretty num +:+
  " not found in the repository:" +:+ Py.nl +:+ Py.strip line.

(** Lines 184-200; [num] and [lines] are the variables of the source
    when the loop reaches [stdin]. *)
Fixpoint read_lines (stdin : list string) (num : nat)
    (lines : gmap string (list string)) : M (gmap string (list string)) :=
  match stdin with
  | [] => ret lines
  | line :: stdin' =>
      let num := S num in
      match first_word line with
      | inl e => throw e
      | inr word =>
          match revparse_single word with
          | RaisesValueError =>
              (print_stderr (no_hash num line) Py.nl ;; sys_exit 1)%M
          | RaisesKeyError =>
              (print_stderr (not_in_repo num line) Py.nl ;; sys_exit 1)%M
          | Commit h =>
              read_lines stdin' num
                match lines !! h with
                | Some group => <[h := group ++ [line]]> lines
                | None => <[h := [line]]> lines
                end
          end
      end
  end.

Definition not_upstream : string :=
  "Error: the following entries were not found upstream:".

(** [d.values()] *)
Definition values {V} (d : gmap string V) : list V := (map_to_list d).*2.

(** Lines 164-180. *)
Definition dump_heads : M unit :=
  (print "Cached heads:" Py.nl ;;
   let! c_heads := cached_heads in
   print (pformat c_heads) Py.nl ;;
   print "Current heads:" Py.nl ;;
   let! heads := lift (_get_heads revparse_single git_config) in
   print (pformat (Some heads)) Py.nl ;;
   let action := if bool_decide (c_heads = Some heads) then "Will not" else "Will" in
   print (action +:+ " rebuild history") Py.nl ;;
   sys_exit 0)%M.

(** Lines 182-210. *)
Definition sort_stdin (stdin : list string) : M unit :=
  (let! lines := read_lines stdin 0 ∅ in
   let! r := git_sort lines in
   let '(entries, lines') := r in
   print (Py.join EmptyString (entries ≫= value)) EmptyString ;;
   if bool_decide (size lines' ≠ 0%nat) then
     print_stderr not_upstream Py.nl ;;
     print (Py.join EmptyString (values lines' ≫= id)) EmptyString ;;
     sys_exit 1
   else ret ())%M.

(** The script from line 164 on; [dump] is [args.dump_heads]. *)
Definition main (dump : bool) (stdin : list string) : M unit :=
  if dump then dump_heads else sort_stdin stdin.

End Program.

Definition empty_cache : Cache := mkCache None None.
Definition start (c : Cache) : World := mkWorld c EmptyString EmptyString 0.

(** ** Commit graphs *)

(** [reachable parents r c]: [c] is [r] or an ancestor of [r] in the graph
    whose edges are given by [parents]. *)
Inductive reachable (parents : string → list string) : string → string → Prop :=
  | reach_self r : reachable parents r r
  | reach_parent r p c :
      p ∈ parents r → reachable parents p c → reachable parents r c.

(** *** The command line of [git log]

    How git reads the revision arguments of [git log], stated on the
    command line itself and apart from the code that builds one. *)

Definition hexdigit (c : Ascii.ascii) : bool :=
  let n := Ascii.nat_of_ascii c in
  ((Nat.leb 48 n && Nat.leb n 57) || (Nat.leb 97 n && Nat.leb n 102))%bool.

Fixpoint hexdigits (s : string) : bool :=
  match s with
  | EmptyString => true
  | String c s' => hexdigit c && hexdigits s'
  end.

(** A full object id, as [str(commit.id)] gives it: 40 hexadecimal
    digits. *)
Definition is_sha1 (id : string) : bool :=
  (Nat.eqb (String.length id) 40 && hexdigits id)%bool.

(** The full id of a commit of the repository, [is_commit] telling which
    objects of the repository are commits. *)
Definition commit_id (is_commit : string → bool) (id : string) : bool :=
  (is_sha1 id && is_commit id)%bool.

(** An argument [^<rev>] excludes the commits reachable from [<rev>]; any
    other revision argument includes the commits reachable from it. *)
Definition excluded_rev (arg : string) : option string :=
  match arg with
  | String c rev => if Ascii.eqb c "^"%char then Some rev else None
  | EmptyString => None
  end.

Definition excluded_revs (args : list string) : list string :=
  omap excluded_rev args.

Definition included_revs (args : list string) : list string :=
  filter (λ arg, excluded_rev arg = None) args.

(** The revision an argument names. *)
Definition rev_of (arg : string) : string := default arg (excluded_rev arg).

(** What [git log --topo-order --reverse --pretty=tformat:%H] is relied on
    for, on revision arguments that name commits of the repository by their
    full ids, at least one argument given: when it exits with status 0, the
    lines it printed are the commits reachable from an included revision
    and from no excluded one. *)
Definition git_log_contract (parents : string → list string)
    (is_commit : string → bool)
    (Popen : list string → list string * Z) : Prop :=
  ∀ (revs : list string) (out : list string),
    revs ≠ [] →
    Forall (λ arg, commit_id is_commit (rev_of arg) = true) revs →
    Popen ("git" :: "log" :: "--topo-order" :: "--reverse" ::
           "--pretty=tformat:%H" :: revs) = (out, 0%Z) →
    ∀ c, c ∈ Py.strip <$> out ↔
         (∃ r, r ∈ included_revs revs ∧ reachable parents r c) ∧
         (∀ e, e ∈ excluded_revs revs → ¬ reachable parents e c).

(** ** A small repository, for examples *)

Module Ex.

(** Four commits in a line, [i1] the root and [i4] the newest. *)
Definition i1 : string := "1111111111111111111111111111111111111111".
Definition i2 : string := "2222222222222222222222222222222222222222".
Definition i3 : string := "3333333333333333333333333333333333333333".
Definition i4 : string := "4444444444444444444444444444444444444444".

Definition parents (c : string) : list string :=
  if bool_decide (c = i4) then [i3]
  else if bool_decide (c = i3) then [i2]
  else if bool_decide (c = i2) then [i1]
  else [].

Definition is_commit (id : string) : bool :=
  bool_decide (id ∈ [i1; i2; i3; i4]).

Definition ancestors (c : string) : list string :=
  if bool_decide (c = i4) then [i1; i2; i3; i4]
  else if bool_decide (c = i3) then [i1; i2; i3]
  else if bool_decide (c = i2) then [i1; i2]
  else [c].

(** [origin] follows linux.git and is at [i2], [mirror] is a second remote
    of linux.git and is at [i1], [net] is at [i3], the checkout at [i4]. A
    full id names its commit; a hexadecimal word names nothing; anything
    else is not a revision. *)
Definition revparse_single (spec : string) : revparse :=
  if bool_decide (spec = "origin/master") then Commit i2
  else if bool_decide (spec = "mirror/master") then Commit i1
  else if bool_decide (spec = "net/master") then Commit i3
  else if bool_decide (spec = "HEAD") then Commit i4
  else if bool_decide (spec ∈ [i1; i2; i3; i4]) then Commit spec
  else if hexdigits spec then RaisesKeyError
  else RaisesValueError.

Definition url_linux_git : string :=
  "git://git.kernel.org/pub/scm/linux/kernel/git/torvalds/linux.git".
Definition url_linux_https : string :=
  "https://git.kernel.org/pub/scm/linux/kernel/git/torvalds/linux.git".
Definition url_net_git : string :=
  "git://git.kernel.org/pub/scm/linux/kernel/git/davem/net.git".

(** Outputs of [git config --get-regexp]. *)
Definition config_chain : list string * Z :=
  ([ "remote.origin.url " +:+ url_linux_git;
     "remote.net.url " +:+ url_net_git ], 0%Z).

Definition config_two_urls : list string * Z :=
  ([ "remote.origin.url " +:+ url_linux_git;
     "remote.mirror.url " +:+ url_linux_https ], 0%Z).


(** A clone of another repository: its only remote is not in the catalog. *)
Definition config_elsewhere : list string * Z :=
  ([ "remote.origin.url https://example.org/linux.git" ], 0%Z).

(** A repository without remotes: [git config] prints nothing and exits
    with status 1. *)
Definition config_no_remote : list string * Z := ([], 1%Z).

Definition line_of (c : string) : string := c +:+ Py.nl.

(** [git log] on this repository, for the revisions it is asked about in
    the examples; any other request fails. *)
Definition Popen (argv : list string) : list string * Z :=
  let revs := drop 5 argv in
  if bool_decide (revs = [i2]) then (line_of <$> [i1; i2], 0%Z)
  else if bool_decide (revs = ["^" +:+ i2; i3]) then (line_of <$> [i3], 0%Z)
  else if bool_decide (revs = [i3]) then (line_of <$> [i1; i2; i3], 0%Z)
  else if bool_decide (revs = [i4]) then (line_of <$> [i1; i2; i3; i4], 0%Z)
  else (["fatal: bad revision" +:+ Py.nl], 128%Z).

Definition pformat (_ : option (list Head)) : string := "...".

Definition heads_chain : list Head := [("linux.git", i2); ("net", i3)].

Definition history_chain : History :=
  <["net" := [i3]]> (<["linux.git" := [i1; i2]]> ∅).

End Ex.

(** ** Notions used in the statements *)

(** A line without a word: every character is whitespace. *)
Fixpoint blank (s : string) : bool :=
  match s with
  | EmptyString => true
  | String c s' => Py.isspace c && blank s'
  end.

(** The list stored for a head: the commits reachable from it and from
    none of the revisions in [before]. *)
Definition exclusive (parents : string → list string)
    (before : list string) (rev : string) (l : list string) : Prop :=
  ∀ c, c ∈ l ↔ reachable parents rev c ∧ ∀ e, e ∈ before → ¬ reachable parents e c.

(** What a run of the generator over some commits yields and leaves: no
    key is popped twice, what is yielded for a key is the value the mapping
    had for it, and the mapping is left without the keys popped. *)
Definition pops {V} (mapping : gmap string V)
    (out : list (string * SortedEntry V)) (mapping' : gmap string V) : Prop :=
  NoDup out.*1 ∧
  (∀ c entry, (c, entry) ∈ out → mapping !! c = Some (value entry)) ∧
  (∀ c, mapping' !! c = if decide (c ∈ out.*1) then None else mapping !! c).

(** A line the loop goes past: its first word names a commit. *)
Definition resolves (revparse_single : string → revparse) (line : string) : Prop :=
  ∃ word h, first_word line = ok word ∧ revparse_single word = Commit h.

(** What the script has done when it has reported line [num]: it has
    written one of the two messages about this line and has exited with
    status 1. *)
Definition reports_line (num : nat) (line : string) (w : World)
    (r : res unit * World) : Prop :=
  r.1 = raise (SystemExit 1) ∧ stdout r.2 = stdout w ∧
  (stderr r.2 = stderr w +:+ no_hash num line +:+ Py.nl ∨
   stderr r.2 = stderr w +:+ not_in_repo num line +:+ Py.nl).

(** A string without whitespace. *)
Fixpoint no_space (s : string) : bool :=
  match s with
  | EmptyString => true
  | String c s' => negb (Py.isspace c) && no_space s'
  end.

(** Where a word ends: at the end of the string or before whitespace. *)
Definition word_end (s : string) : bool :=
  match s with
  | EmptyString => true
  | String c _ => Py.isspace c
  end.

(** A string that begins with a character that is no whitespace. *)
Definition starts_word (s : string) : bool :=
  match s with
  | EmptyString => false
  | String c _ => negb (Py.isspace c)
  end.

(** A string without a dot. *)
Fixpoint no_dot (s : string) : bool :=
  match s with
  | EmptyString => true
  | String c s' => negb (Ascii.eqb c "."%char) && no_dot s'
  end.

(** The urls of a catalog entry that are urls of configured remotes. *)
Definition configured (remotes : gmap string string) (urls : list string)
    : list string :=
  filter (λ url, is_Some (remotes !! url)) urls.

(** The master branch of every configured remote among [urls] resolves. *)
Definition masters_resolve (revparse_single : string → revparse)
    (remotes : gmap string string) (urls : list string) : Prop :=
  ∀ url remote, url ∈ urls → remotes !! url = Some remote →
    ∃ id, revparse_single (remote +:+ "/master") = Commit id.

(** The heads of one catalog entry: one for each of its urls that is the
    url of a configured remote whose master branch resolves. *)
Definition link_heads (revparse_single : string → revparse)
    (remotes : gmap string string) (name : string) (urls : list string)
    : list Head :=
  omap (λ url,
          match remotes !! url with
          | Some remote =>
              match revparse_single (remote +:+ "/master") with
              | Commit id => Some (name, id)
              | _ => None
              end
          | None => None
          end) urls.

(** The remotes of the example configurations, as [_get_heads] reads
    them. *)
Definition remotes_chain : gmap string string :=
  <[Ex.url_net_git := "net"]> (<[Ex.url_linux_git := "origin"]> ∅).

Definition remotes_two_urls : gmap string string :=
  <[Ex.url_linux_https := "mirror"]> (<[Ex.url_linux_git := "origin"]> ∅).

(** The [git log] the builder runs for the head at position [i], whose
    revision is [rev]: the revisions of the heads before it are excluded. *)
Definition git_log_of (Popen : list string → list string * Z)
    (heads : list Head) (i : nat) (rev : string) : list string * Z :=
  Popen (git_log_args ++ (caret <$> (take i heads).*2) ++ [rev]).

(** The commits the generator goes through: the histories of the heads, one
    after the other. *)
Definition all_commits (heads : list Head) (history : History) : list string :=
  heads ≫= λ h, default [] (history !! h.1).

(** The commit a line stands for, when its first word names one. *)
Definition line_id (revparse_single : string → revparse) (line : string)
    : option string :=
  match first_word line with
  | inr word =>
      match revparse_single word with
      | Commit h => Some h
      | _ => None
      end
  | inl _ => None
  end.

(** The lines of a mapping from commits to groups of lines, group after
    group as [values] enumerates them. *)
Definition all_lines (lines : gmap string (list string)) : list string :=
  values lines ≫= id.

(** The exception of [sys.exit]. *)
Definition is_exit (e : exn) : bool :=
  match e with
  | SystemExit _ => true
  | _ => false
  end.

(** The elements of a list, each kept where it first occurs. *)
Fixpoint first_occurrences (l : list string) : list string :=
  match l with
  | [] => []
  | c :: l' => c :: filter (λ x, x ≠ c) (first_occurrences l')
  end.

(** The lines of the input that stand for a commit, in the order of the
    input. *)
Definition lines_of (revparse_single : string → revparse)
    (stdin : list string) (c : string) : list string :=
  filter (λ line, line_id revparse_single line = Some c) stdin.

(** * Properties *)

(** ** Strings *)

Lemma lstrip_blank s : blank s = true → Py.lstrip s = EmptyString.
Proof.
  induction s as [|c s IH]; simpl; [done|].
  intros [Hc Hs]%andb_prop. rewrite Hc. auto.
Qed.

Lemma strip_blank s : blank s = true → Py.strip s = EmptyString.
Proof. intros H. unfold Py.strip. by rewrite lstrip_blank. Qed.

Lemma first_word_blank line : blank line = true → first_word line = raise IndexError.
Proof. intros H. unfold first_word. by rewrite strip_blank. Qed.

(** ** The head resolver *)

Lemma head_names_first : head head_names.*1 = Some "linux.git".
Proof. reflexivity. Qed.

(** C2, at two configured urls of one link: [origin] and [mirror] are both
    remotes of linux.git, and [_get_heads] appends a head for each of them,
    so that link has two heads; the builder then refuses the list. *)
Theorem get_heads_two_urls_of_one_link :
  _get_heads Ex.revparse_single Ex.config_two_urls
    = ok [("linux.git", Ex.i2); ("linux.git", Ex.i1)] ∧
  _rebuild_history Ex.Popen [("linux.git", Ex.i2); ("linux.git", Ex.i1)]
    = raise (Exception (not_unique "linux.git")).
Proof. split; vm_compute; reflexivity. Qed.



(** ** The history builder: how it fails *)

Section RebuildFails.

Variable Popen : list string → list string * Z.

(** A name that already has a history, or that comes twice, ends the
    loop with an exception. *)
Lemma rebuild_loop_duplicate heads processed (history : History) :
  (∃ n, n ∈ heads.*1 ∧ is_Some (history !! n)) ∨ ¬ NoDup heads.*1 →
  ∃ msg, rebuild_loop Popen heads processed history = raise (Exception msg).
Proof.
  revert processed history.
  induction heads as [|[name rev] heads IH]; intros processed history Hdup.
  - destruct Hdup as [(n & Hn & _)|Hnd].
    + by apply elem_of_nil in Hn.
    + destruct Hnd. constructor.
  - cbn [rebuild_loop].
    destruct (Popen _) as [out returncode].
    case_bool_decide as Hin; [by eexists|].
    case_bool_decide as Hrc; [by eexists|].
    apply IH.
    destruct Hdup as [(n & Hn & Hsome)|Hnd].
    + left. exists n. rewrite fmap_cons in Hn.
      apply elem_of_cons in Hn as [->|Hn]; [done|].
      split; [done|].
      destruct (decide (name = n)) as [->|Hne]; [done|].
      by rewrite lookup_insert_ne.
    + rewrite fmap_cons, NoDup_cons in Hnd.
      destruct (decide (name ∈ heads.*1)) as [Hmem|Hmem].
      * left. exists name. split; [done|].
        rewrite lookup_insert_eq. by eexists.
      * right. intros Hnd'. apply Hnd. by split.
Qed.

(** A [git log] that exits with another status than 0 ends the loop with
    an exception: at the latest when its head is reached. *)
Lemma rebuild_loop_returncode heads excluded (history : History) i name rev :
  heads !! i = Some (name, rev) →
  (Popen (git_log_args ++ (caret <$> excluded ++ (take i heads).*2) ++ [rev])).2 ≠ 0%Z →
  ∃ msg, rebuild_loop Popen heads (caret <$> excluded) history
         = raise (Exception msg).
Proof.
  revert excluded history i.
  induction heads as [|[name0 rev0] heads IH]; intros excluded history i Hi Hrc.
  - by rewrite lookup_nil in Hi.
  - cbn [rebuild_loop].
    destruct i as [|i].
    + simpl in Hi. injection Hi as -> ->.
      rewrite take_0, fmap_nil, app_nil_r in Hrc.
      destruct (Popen _) as [out returncode]. simpl in Hrc.
      case_bool_decide; [by eexists|].
      rewrite bool_decide_eq_true_2 by done. by eexists.
    + destruct (Popen (git_log_args ++ (caret <$> excluded) ++ [rev0]))
        as [out returncode].
      case_bool_decide; [by eexists|].
      case_bool_decide; [by eexists|].
      change [caret rev0] with (caret <$> [rev0]).
      rewrite <- (fmap_app caret excluded [rev0]).
      apply (IH _ _ i); [done|].
      rewrite firstn_cons, fmap_cons in Hrc. simpl in Hrc.
      by rewrite <- app_assoc.
Qed.

End RebuildFails.

(** ** The history cache *)

(** C4: [_get_history] calls the builder exactly when the cache has no
    ["heads"] or has other heads than the ones given (as lists of pairs);
    what a successful rebuild returns is stored with the heads under the two
    keys; with the same heads stored nothing is rebuilt, the cache stays as
    it is and its ["history"] is returned. Resolving the same heads again
    after a resolution that returned gives the same history, with no call of
    the builder and no change of the cache. *)
Theorem get_history_rebuilds_iff_heads_differ
    (Popen : list string → list string * Z) (heads : list Head) (w : World) :
  let r := _get_history Popen heads w in
  (heads_key (cache w) ≠ Some heads →
     rebuilds r.2 = S (rebuilds w) ∧
     ∀ history, _rebuild_history Popen heads = ok history →
       r.1 = ok history ∧ cache r.2 = mkCache (Some heads) (Some history)) ∧
  (heads_key (cache w) = Some heads →
     rebuilds r.2 = rebuilds w ∧ cache r.2 = cache w ∧
     ∀ history, history_key (cache w) = Some history → r.1 = ok history) ∧
  (∀ history, r.1 = ok history →
     _get_history Popen heads r.2 = (ok history, r.2)).
Proof.
  destruct w as [[hk histk] out err n].
  unfold _get_history, cached_heads, except_KeyError, bind, rebuild,
    cache_get_heads, cache_get_history, cache_set_heads, cache_set_history,
    set_cache, ret, ok, raise.
  cbn [cache heads_key history_key stdout stderr rebuilds].
  destruct hk as [c_heads|]; cbn [fst snd];
    [case_bool_decide as Hne;
       [|injection Hne as ->]
    |rewrite bool_decide_eq_true_2 by done].
  all: try destruct (_rebuild_history Popen heads) as [e|history] eqn:Hb.
  all: try destruct histk as [cached|].
  all: cbn [fst snd cache heads_key history_key rebuilds stdout stderr].
  all: repeat split; intros; simplify_eq; try done.
  all: rewrite bool_decide_eq_false_2 by (intros Hx; by apply Hx); done.
Qed.

Lemma get_history_rebuilds_iff_heads_differ_witness :
  let r := _get_history Ex.Popen Ex.heads_chain (start empty_cache) in
  rebuilds r.2 = 1%nat ∧
  r.1 = ok Ex.history_chain ∧
  cache r.2 = mkCache (Some Ex.heads_chain) (Some Ex.history_chain) ∧
  _get_history Ex.Popen Ex.heads_chain r.2 = (ok Ex.history_chain, r.2).
Proof.
  intros r.
  destruct (get_history_rebuilds_iff_heads_differ
              Ex.Popen Ex.heads_chain (start empty_cache))
    as (Hmiss & _ & Hagain).
  destruct Hmiss as [Hn Hstore]; [discriminate|].
  destruct (Hstore Ex.history_chain) as [Hr Hc]; [vm_compute; reflexivity|].
  split; [exact Hn|]. split; [exact Hr|]. split; [exact Hc|].
  exact (Hagain _ Hr).
Defined.

(** C9: when the history has to be rebuilt and the builder fails, because a
    head name comes twice or because a [git log] exits with another status
    than 0, [_get_history] raises the builder's exception and the cache is
    as it was: neither ["heads"] nor ["history"] is written. Whatever
    exception [_get_history] ends with, the cache is as it was. *)
Theorem get_history_failure_keeps_cache
    (Popen : list string → list string * Z) (heads : list Head) (w : World) :
  (heads_key (cache w) ≠ Some heads →
   (¬ NoDup heads.*1 ∨
    ∃ i name rev, heads !! i = Some (name, rev) ∧
      (Popen (git_log_args ++ (caret <$> (take i heads).*2) ++ [rev])).2 ≠ 0%Z) →
   ∃ msg, _rebuild_history Popen heads = raise (Exception msg) ∧
          _get_history Popen heads w
          = (raise (Exception msg),
             mkWorld (cache w) (stdout w) (stderr w) (S (rebuilds w)))) ∧
  (∀ e, (_get_history Popen heads w).1 = raise e →
        cache (_get_history Popen heads w).2 = cache w).
Proof.
  split.
  - intros Hne Hfail.
    assert (∃ msg, _rebuild_history Popen heads = raise (Exception msg))
      as [msg Hb].
    { unfold _rebuild_history. destruct Hfail as [Hdup|(i & name & rev & Hi & Hrc)].
      - apply rebuild_loop_duplicate. by right.
      - apply (rebuild_loop_returncode Popen heads [] ∅ i name rev Hi Hrc). }
    exists msg. split; [done|].
    destruct w as [[hk histk] out err n].
    unfold _get_history, cached_heads, except_KeyError, bind, rebuild,
      cache_get_heads, ret, ok, raise in *.
    cbn [cache heads_key history_key stdout stderr rebuilds] in *.
    destruct hk as [c_heads|]; rewrite bool_decide_eq_true_2 by done;
      by rewrite Hb.
  - intros e.
    destruct w as [[hk histk] out err n].
    unfold _get_history, cached_heads, except_KeyError, bind, rebuild,
      cache_get_heads, cache_get_history, cache_set_heads, cache_set_history,
      set_cache, ret, ok, raise.
    cbn [cache heads_key history_key stdout stderr rebuilds].
    destruct hk as [c_heads|]; [case_bool_decide|rewrite bool_decide_eq_true_2 by done].
    all: try destruct (_rebuild_history Popen heads) as [e'|history].
    all: try destruct histk as [cached|].
    all: cbn [fst snd cache]; done.
Qed.

Lemma get_history_failure_keeps_cache_witness :
  ∃ msg,
    _get_history Ex.Popen [("linux.git", Ex.i2); ("linux.git", Ex.i1)]
      (start (mkCache (Some Ex.heads_chain) (Some Ex.history_chain)))
    = (raise (Exception msg),
       mkWorld (mkCache (Some Ex.heads_chain) (Some Ex.history_chain))
         EmptyString EmptyString 1).
Proof.
  destruct (proj1 (get_history_failure_keeps_cache Ex.Popen
              [("linux.git", Ex.i2); ("linux.git", Ex.i1)]
              (start (mkCache (Some Ex.heads_chain) (Some Ex.history_chain)))))
    as (msg & _ & Hrun).
  - discriminate.
  - left. intros Hnd. apply NoDup_cons in Hnd as [Hnotin _].
    apply Hnotin. constructor.
  - exists msg. exact Hrun.
Defined.

(** ** The script *)

(** C10: with [--dump-heads] the script reads ["heads"] from the cache and
    writes nothing to it; it calls no rebuild, reads no line of its input and
    ends with [sys.exit(0)] unless resolving the heads raised. *)
Theorem dump_heads_keeps_cache
    (revparse_single : string → revparse) (git_config : list string * Z)
    (Popen : list string → list string * Z)
    (pformat : option (list Head) → string) (stdin : list string) (w : World) :
  let r := main revparse_single git_config Popen pformat true stdin w in
  cache r.2 = cache w ∧ rebuilds r.2 = rebuilds w ∧
  (r.1 = raise (SystemExit 0) ∨
   ∃ e, r.1 = raise e ∧ _get_heads revparse_single git_config = raise e).
Proof.
  destruct w as [[hk histk] out err n].
  unfold main, dump_heads, cached_heads, except_KeyError, bind, print, lift,
    cache_get_heads, sys_exit, throw, ret, ok, raise.
  cbn [cache heads_key history_key stdout stderr rebuilds].
  destruct hk as [c_heads|];
    destruct (_get_heads revparse_single git_config) as [e|heads];
    cbn [fst snd cache rebuilds]; repeat split; eauto.
Qed.

(** ** The generator *)

Section AtMostOnce.

Context {V : Type}.

Lemma pops_nil (mapping : gmap string V) : pops mapping [] mapping.
Proof.
  split; [constructor|]. split.
  - intros c entry Hin. by apply elem_of_nil in Hin.
  - intros c. by rewrite decide_False by apply not_elem_of_nil.
Qed.

Lemma pops_key (mapping : gmap string V) out mapping' c :
  pops mapping out mapping' → c ∈ out.*1 → is_Some (mapping !! c).
Proof.
  intros (_ & Hval & _) Hc.
  apply list_elem_of_fmap in Hc as ([c' entry] & -> & Hin).
  cbn [fst]. rewrite (Hval _ _ Hin). by eexists.
Qed.

(** A pop of [c] followed by a run on what is left. *)
Lemma pops_cons (mapping : gmap string V) c v name out mapping' :
  mapping !! c = Some v →
  pops (delete c mapping) out mapping' →
  pops mapping ((c, mkSortedEntry name v) :: out) mapping'.
Proof.
  intros Hc Hrest. pose proof Hrest as (Hnd & Hval & Hleft).
  split; [|split].
  - rewrite fmap_cons. apply NoDup_cons. split; [|done].
    intros Hin. apply (pops_key _ _ _ _ Hrest) in Hin as [v' Hv'].
    by rewrite lookup_delete_eq in Hv'.
  - intros c' entry [[= -> ->]|Hin]%elem_of_cons; [done|].
    specialize (Hval _ _ Hin).
    apply lookup_delete_Some in Hval. tauto.
  - intros c'. rewrite Hleft, fmap_cons. cbn [fst].
    destruct (decide (c' ∈ out.*1)) as [Hin|Hout].
    + rewrite decide_True by (by apply elem_of_cons; right). done.
    + destruct (decide (c' = c)) as [->|Hne].
      * rewrite decide_True by (by apply elem_of_cons; left).
        apply lookup_delete_eq.
      * rewrite decide_False
          by (intros [?|?]%elem_of_cons; [by apply Hne|by apply Hout]).
        by apply lookup_delete_ne.
Qed.

(** Two runs, one after the other. *)
Lemma pops_app (mapping : gmap string V) out1 mapping1 out2 mapping2 :
  pops mapping out1 mapping1 →
  pops mapping1 out2 mapping2 →
  pops mapping (out1 ++ out2) mapping2.
Proof.
  intros H1 H2.
  pose proof H1 as (Hnd1 & Hval1 & Hleft1).
  pose proof H2 as (Hnd2 & Hval2 & Hleft2).
  assert (∀ c, c ∈ out1.*1 → c ∈ out2.*1 → False) as Hdisj.
  { intros c Hc1 Hc2. apply (pops_key _ _ _ _ H2) in Hc2 as [v Hv].
    rewrite Hleft1, decide_True in Hv by done. done. }
  split; [|split].
  - rewrite fmap_app. apply NoDup_app. eauto.
  - intros c entry [Hin|Hin]%elem_of_app; [by apply Hval1|].
    specialize (Hval2 _ _ Hin). rewrite Hleft1 in Hval2.
    by destruct (decide (c ∈ out1.*1)).
  - intros c. rewrite Hleft2, Hleft1, fmap_app.
    destruct (decide (c ∈ out2.*1)) as [Hin2|Hout2].
    + rewrite decide_True by (apply elem_of_app; by right). done.
    + destruct (decide (c ∈ out1.*1)) as [Hin1|Hout1].
      * rewrite decide_True by (apply elem_of_app; by left). done.
      * rewrite decide_False
          by (intros [?|?]%elem_of_app; [by apply Hout1|by apply Hout2]).
        done.
Qed.

Lemma sort_commits_pops name commits (mapping : gmap string V) :
  pops mapping (sort_commits name commits mapping).1
               (sort_commits name commits mapping).2.
Proof.
  revert mapping. induction commits as [|commit commits IH]; intros mapping.
  - apply pops_nil.
  - cbn [sort_commits].
    destruct (mapping !! commit) as [v|] eqn:Hc; [|apply IH].
    specialize (IH (delete commit mapping)).
    destruct (sort_commits name commits (delete commit mapping)) as [out m'].
    by apply pops_cons.
Qed.

Lemma sort_heads_pops heads (history : History) (mapping : gmap string V) :
  pops mapping (sort_heads heads history mapping).1.1
               (sort_heads heads history mapping).1.2.
Proof.
  revert mapping. induction heads as [|[name rev] heads IH]; intros mapping.
  - apply pops_nil.
  - cbn [sort_heads].
    destruct (history !! name) as [commits|]; [|apply pops_nil].
    pose proof (sort_commits_pops name commits mapping) as H1.
    destruct (sort_commits name commits mapping) as [out1 mapping1].
    specialize (IH mapping1).
    destruct (sort_heads heads history mapping1) as [[out2 mapping2] e].
    by apply (pops_app _ _ mapping1).
Qed.

End AtMostOnce.

(** C6: whatever the heads, the histories and the mapping, no key is popped
    and yielded twice by the loop of [git_sort], also when a commit stands
    in the history of several heads or several times in one; what is
    yielded for a key is the value the mapping had for it, and the mapping
    is left without the keys yielded and otherwise as it was. The entries
    [git_sort] yields are the entries of this loop. *)
Theorem git_sort_yields_each_key_at_most_once
    {V : Type} (heads : list Head) (history : History) (mapping : gmap string V) :
  let out := (sort_heads heads history mapping).1.1 in
  let mapping' := (sort_heads heads history mapping).1.2 in
  NoDup out.*1 ∧
  (∀ c entry, (c, entry) ∈ out → mapping !! c = Some (value entry)) ∧
  (∀ c, mapping' !! c = if decide (c ∈ out.*1) then None else mapping !! c) ∧
  (∀ revparse_single git_config Popen w entries left w',
     _get_heads revparse_single git_config = ok heads →
     _get_history Popen heads w = (ok history, w') →
     git_sort revparse_single git_config Popen mapping w
       = (ok (entries, left), w') ↔
     (sort_heads heads history mapping).2 = None ∧
     entries = out.*2 ∧ left = mapping').
Proof.
  intros out mapping'.
  destruct (sort_heads_pops heads history mapping) as (Hnd & Hval & Hleft).
  split; [done|]. split; [done|]. split; [done|].
  intros revparse_single git_config Popen w entries left w' Hh Hist.
  unfold git_sort, bind, lift, ret, throw, ok in *.
  rewrite Hh, Hist. subst out mapping'.
  destruct (sort_heads heads history mapping) as [[out m'] [e|]]; cbn [fst snd].
  - split; [intros [=]|intros [[=] _]].
  - split.
    + by intros [= <- <-].
    + by intros (_ & -> & ->).
Qed.

(** ** The history builder: what it computes *)

Section RebuildPartitions.

Variable parents : string → list string.
Variable is_commit : string → bool.
Variable Popen : list string → list string * Z.
Hypothesis contract : git_log_contract parents is_commit Popen.

(** A full id is no exclusion. *)
Lemma sha1_included rev : is_sha1 rev = true → excluded_rev rev = None.
Proof.
  destruct rev as [|c rev]; [done|].
  unfold is_sha1. cbn [hexdigits excluded_rev].
  intros [_ [Hc _]%andb_prop]%andb_prop.
  destruct (Ascii.eqb c "^"%char) eqn:E; [|done].
  apply Ascii.eqb_eq in E. by subst c.
Qed.

(** What the builder writes for a processed head is an exclusion of its
    revision. *)
Lemma caret_excluded rev : excluded_rev (caret rev) = Some rev.
Proof. reflexivity. Qed.

Lemma processed_excluded excluded rev :
  is_sha1 rev = true →
  excluded_revs ((caret <$> excluded) ++ [rev]) = excluded ∧
  included_revs ((caret <$> excluded) ++ [rev]) = [rev].
Proof.
  intros Hrev%sha1_included. unfold excluded_revs, included_revs.
  induction excluded as [|e excluded [IH1 IH2]].
  - cbn. rewrite Hrev. by rewrite decide_True by done.
  - rewrite fmap_cons. cbn [app omap list_omap].
    rewrite filter_cons, caret_excluded, IH1, IH2.
    by rewrite decide_False by done.
Qed.

(** The [git log] the builder runs for a head, read by the contract. *)
Lemma git_log_of_head excluded rev out :
  Forall (λ e, commit_id is_commit e = true) excluded →
  commit_id is_commit rev = true →
  Popen (git_log_args ++ (caret <$> excluded) ++ [rev]) = (out, 0%Z) →
  exclusive parents excluded rev (Py.strip <$> out).
Proof.
  intros Hexcl Hrev Hlog c.
  assert (is_sha1 rev = true) as Hsha
    by (by apply andb_prop in Hrev as [? _]).
  destruct (processed_excluded excluded rev Hsha) as [Hex Hin].
  rewrite (contract ((caret <$> excluded) ++ [rev]) out); [| | |exact Hlog].
  - rewrite Hex, Hin. split.
    + intros [(r & ->%list_elem_of_singleton & Hr) Hnot]. by split.
    + intros [Hr Hnot]. split; [|done].
      exists rev. split; [apply list_elem_of_here|done].
  - by destruct (caret <$> excluded).
  - apply Forall_app. split.
    + apply Forall_fmap. eapply Forall_impl; [exact Hexcl|].
      intros e He. by cbn.
    + constructor; [|constructor].
      unfold rev_of. by rewrite (sha1_included rev Hsha).
Qed.

Lemma rebuild_loop_spec heads excluded (hist0 history : History) :
  Forall (λ e, commit_id is_commit e = true) excluded →
  Forall (λ h, commit_id is_commit h.2 = true) heads →
  rebuild_loop Popen heads (caret <$> excluded) hist0 = ok history →
  NoDup heads.*1 ∧
  (∀ n, n ∈ heads.*1 → hist0 !! n = None) ∧
  (∀ n, n ∉ heads.*1 → history !! n = hist0 !! n) ∧
  (∀ i name rev, heads !! i = Some (name, rev) →
     ∃ l, history !! name = Some l ∧
          exclusive parents (excluded ++ (take i heads).*2) rev l).
Proof.
  revert excluded hist0.
  induction heads as [|[name0 rev0] heads IH];
    intros excluded hist0 Hexcl Hids Hrun.
  - injection Hrun as <-. split; [constructor|].
    split; [by intros n ?%elem_of_nil|]. split; [done|].
    intros i name rev Hi. by rewrite lookup_nil in Hi.
  - cbn [rebuild_loop] in Hrun.
    apply Forall_cons in Hids as [Hrev0 Hids]. cbn [snd] in Hrev0.
    destruct (Popen _) as [out returncode] eqn:Hlog.
    case_bool_decide as Hfresh; [done|].
    case_bool_decide as Hrc; [done|].
    change [caret rev0] with (caret <$> [rev0]) in Hrun.
    rewrite <- fmap_app in Hrun.
    apply IH in Hrun as (Hnd & Hnone & Hkeep & Hlists);
      [|apply Forall_app; split; [done|by constructor]|done].
    assert (name0 ∉ heads.*1) as Hnotin.
    { intros Hin. apply Hnone in Hin. by rewrite lookup_insert_eq in Hin. }
    assert (hist0 !! name0 = None) as Hnone0.
    { destruct (hist0 !! name0) eqn:E; [|done]. destruct Hfresh. by eexists. }
    split; [|split; [|split]].
    + rewrite fmap_cons. by apply NoDup_cons.
    + intros n. rewrite fmap_cons.
      intros [->|Hin]%elem_of_cons; [done|].
      specialize (Hnone n Hin).
      rewrite lookup_insert_ne in Hnone; [done|]. by intros ->.
    + intros n. rewrite fmap_cons. intros Hn.
      rewrite Hkeep by (intros ?; apply Hn, elem_of_cons; by right).
      apply lookup_insert_ne. intros ->. apply Hn, elem_of_cons. by left.
    + intros [|i] name rev Hi.
      * injection Hi as -> ->. exists (Py.strip <$> out). split.
        -- rewrite Hkeep by done. apply lookup_insert_eq.
        -- rewrite take_0, fmap_nil, app_nil_r.
           assert (returncode = 0%Z) as ->
             by (destruct (decide (returncode = 0%Z)); [done|by destruct Hrc]).
           by apply git_log_of_head.
      * destruct (Hlists i name rev Hi) as (l & Hl & Hex).
        exists l. split; [done|].
        rewrite firstn_cons, fmap_cons. cbn [snd].
        by rewrite <- app_assoc in Hex.
Qed.

Lemma rebuild_history_spec heads (history : History) :
  Forall (λ h, commit_id is_commit h.2 = true) heads →
  _rebuild_history Popen heads = ok history →
  NoDup heads.*1 ∧
  (∀ n, n ∉ heads.*1 → history !! n = None) ∧
  (∀ i name rev, heads !! i = Some (name, rev) →
     ∃ l, history !! name = Some l ∧ exclusive parents (take i heads).*2 rev l).
Proof.
  intros Hids Hrun. unfold _rebuild_history in Hrun.
  change (@nil string) with (caret <$> []) in Hrun.
  apply rebuild_loop_spec in Hrun as (Hnd & _ & Hkeep & Hlists);
    [|constructor|done].
  split; [done|]. split; [|done].
  intros n Hn. by rewrite Hkeep.
Qed.

(** A name with a history is the name of a head. *)
Lemma history_name_head heads (history : History) n l :
  Forall (λ h, commit_id is_commit h.2 = true) heads →
  _rebuild_history Popen heads = ok history →
  history !! n = Some l →
  ∃ i rev, heads !! i = Some (n, rev) ∧ exclusive parents (take i heads).*2 rev l.
Proof.
  intros Hids Hrun Hl.
  destruct (rebuild_history_spec _ _ Hids Hrun) as (_ & Hout & Hlists).
  destruct (decide (n ∈ heads.*1)) as [Hin|Hnotin].
  - apply list_elem_of_fmap in Hin as ([n' rev] & -> & Hin).
    apply list_elem_of_lookup in Hin as [i Hi].
    destruct (Hlists i _ _ Hi) as (l' & Hl' & Hex).
    cbn [fst] in Hl. rewrite Hl in Hl'. injection Hl' as <-. eauto.
  - by rewrite Hout in Hl.
Qed.

(** Up to any head, a commit is in the list of an earlier head or is
    reachable from no earlier head. *)
Lemma first_head_reaching heads (history : History) c i :
  Forall (λ h, commit_id is_commit h.2 = true) heads →
  _rebuild_history Popen heads = ok history →
  (i ≤ length heads)%nat →
  (∃ n l, history !! n = Some l ∧ c ∈ l) ∨
  (∀ e, e ∈ (take i heads).*2 → ¬ reachable parents e c).
Proof.
  intros Hids Hrun.
  destruct (rebuild_history_spec _ _ Hids Hrun) as (_ & _ & Hlists).
  induction i as [|i IH]; intros Hi.
  - right. intros e He. by apply elem_of_nil in He.
  - destruct IH as [Hfound|Hnone]; [lia|by left|].
    destruct (lookup_lt_is_Some_2 heads i) as [[name rev] Hhead]; [lia|].
    destruct (Hlists i name rev Hhead) as (l & Hl & Hex).
    destruct (decide (c ∈ l)) as [Hin|Hnotin]; [left; eauto|].
    right. intros e He.
    rewrite (take_S_r _ _ _ Hhead), fmap_app in He.
    apply elem_of_app in He as [He|He]; [by apply Hnone|].
    apply list_elem_of_singleton in He as ->. cbn [snd].
    intros Hreach. apply Hnotin, Hex. by split.
Qed.

End RebuildPartitions.

(** C3: under the contract of [git log], for heads whose revisions are
    full ids of commits of the repository, in a history that
    [_rebuild_history] returns, the list of the head at position [i] is the
    set of commits reachable from its revision and from none of the
    revisions of the heads before it; the lists of two different names have
    no commit in common; and a commit is in one of the lists exactly when
    it is reachable from the revision of one of the heads. *)
Theorem rebuild_history_partitions
    (parents : string → list string) (is_commit : string → bool)
    (Popen : list string → list string * Z)
    (heads : list Head) (history : History) :
  git_log_contract parents is_commit Popen →
  Forall (λ h, commit_id is_commit h.2 = true) heads →
  _rebuild_history Popen heads = ok history →
  (∀ i name rev, heads !! i = Some (name, rev) →
     ∃ l, history !! name = Some l ∧
          ∀ c, c ∈ l ↔ reachable parents rev c ∧
                       ∀ e, e ∈ (take i heads).*2 → ¬ reachable parents e c) ∧
  (∀ n1 n2 l1 l2 c,
     n1 ≠ n2 → history !! n1 = Some l1 → history !! n2 = Some l2 →
     c ∈ l1 → c ∉ l2) ∧
  (∀ c, (∃ n l, history !! n = Some l ∧ c ∈ l) ↔
        (∃ h, h ∈ heads ∧ reachable parents h.2 c)).
Proof.
  intros contract Hids Hrun.
  destruct (rebuild_history_spec parents is_commit Popen contract _ _ Hids Hrun)
    as (Hnd & Hout & Hlists).
  split; [exact Hlists|]. split.
  - assert (∀ i1 i2 n1 n2 r1 r2 l1 l2 c,
      (i1 < i2)%nat → heads !! i1 = Some (n1, r1) → heads !! i2 = Some (n2, r2) →
      exclusive parents (take i1 heads).*2 r1 l1 →
      exclusive parents (take i2 heads).*2 r2 l2 →
      c ∈ l1 → c ∈ l2 → False) as Hlt.
    { intros i1 i2 n1 n2 r1 r2 l1 l2 c Hi H1 H2 Hex1 Hex2 Hc1 Hc2.
      apply Hex1 in Hc1 as [Hreach _]. apply Hex2 in Hc2 as [_ Hexcl].
      apply (Hexcl r1); [|done].
      apply list_elem_of_fmap. exists (n1, r1). split; [done|].
      apply list_elem_of_lookup. exists i1.
      rewrite lookup_take_lt by done. done. }
    intros n1 n2 l1 l2 c Hne Hl1 Hl2 Hc1 Hc2.
    destruct (history_name_head parents is_commit Popen contract _ _ _ _ Hids Hrun Hl1)
      as (i1 & r1 & H1 & Hex1).
    destruct (history_name_head parents is_commit Popen contract _ _ _ _ Hids Hrun Hl2)
      as (i2 & r2 & H2 & Hex2).
    destruct (Nat.lt_total i1 i2) as [Hi|[->|Hi]].
    + exact (Hlt _ _ _ _ _ _ _ _ _ Hi H1 H2 Hex1 Hex2 Hc1 Hc2).
    + rewrite H1 in H2. by injection H2.
    + exact (Hlt _ _ _ _ _ _ _ _ _ Hi H2 H1 Hex2 Hex1 Hc2 Hc1).
  - intros c. split.
    + intros (n & l & Hl & Hc).
      destruct (history_name_head parents is_commit Popen contract _ _ _ _ Hids Hrun Hl)
        as (i & rev & Hi & Hex).
      exists (n, rev). split; [by eapply list_elem_of_lookup_2|].
      exact (proj1 (proj1 (Hex c) Hc)).
    + intros ([n rev] & Hin & Hreach).
      destruct (first_head_reaching parents is_commit Popen contract heads
                  history c (length heads) Hids Hrun) as [Hfound|Hnone];
        [done|done|].
      exfalso. apply (Hnone rev); [|done].
      rewrite firstn_all. apply list_elem_of_fmap. by exists (n, rev).
Qed.

(** *** The example repository meets the contract *)

Lemma ex_ancestors_reachable r c :
  reachable Ex.parents r c ↔ c ∈ Ex.ancestors r.
Proof.
  split.
  - induction 1 as [r|r p c Hp _ IH].
    + unfold Ex.ancestors. repeat case_bool_decide; subst; set_solver.
    + revert Hp IH. unfold Ex.parents.
      repeat case_bool_decide; subst;
        intros Hp; try (by apply elem_of_nil in Hp);
        apply list_elem_of_singleton in Hp; subst p;
        repeat match goal with
               | |- context [Ex.ancestors ?x] =>
                   let l := eval vm_compute in (Ex.ancestors x) in
                   change (Ex.ancestors x) with l
               end;
        rewrite !elem_of_cons; tauto.
  - assert (reachable Ex.parents Ex.i2 Ex.i1) as H21
      by (apply (reach_parent _ _ Ex.i1); [vm_compute; set_solver|constructor]).
    assert (reachable Ex.parents Ex.i3 Ex.i2) as H32
      by (apply (reach_parent _ _ Ex.i2); [vm_compute; set_solver|constructor]).
    assert (reachable Ex.parents Ex.i3 Ex.i1) as H31
      by (apply (reach_parent _ _ Ex.i2); [vm_compute; set_solver|done]).
    assert (reachable Ex.parents Ex.i4 Ex.i3) as H43
      by (apply (reach_parent _ _ Ex.i3); [vm_compute; set_solver|constructor]).
    assert (reachable Ex.parents Ex.i4 Ex.i2) as H42
      by (apply (reach_parent _ _ Ex.i3); [vm_compute; set_solver|done]).
    assert (reachable Ex.parents Ex.i4 Ex.i1) as H41
      by (apply (reach_parent _ _ Ex.i3); [vm_compute; set_solver|done]).
    unfold Ex.ancestors. repeat case_bool_decide; subst; intros Hc;
      repeat (apply elem_of_cons in Hc as [->|Hc]); try done;
      try constructor; by apply elem_of_nil in Hc.
Qed.

Lemma ex_git_log_contract :
  git_log_contract Ex.parents Ex.is_commit Ex.Popen.
Proof.
  intros revs out _ _ Hlog c.
  assert (∀ r, (∃ x, x ∈ [r] ∧ reachable Ex.parents x c) ↔
               c ∈ Ex.ancestors r) as Hincl.
  { intros r. rewrite <- ex_ancestors_reachable. split.
    - by intros (x & ->%list_elem_of_singleton & Hx).
    - intros Hr. exists r. split; [apply list_elem_of_here|done]. }
  assert (∀ l : list string, (∀ x, x ∈ l → ¬ reachable Ex.parents x c) ↔
               (∀ x, x ∈ l → c ∉ Ex.ancestors x)) as Hexcl.
  { intros l. split; intros H x Hx Hc; apply (H x Hx);
      by apply ex_ancestors_reachable. }
  unfold Ex.Popen in Hlog. cbn [drop] in Hlog. rewrite drop_0 in Hlog.
  repeat case_bool_decide; try done; subst revs; injection Hlog as <-.
  - change (included_revs [Ex.i2]) with [Ex.i2].
    change (excluded_revs [Ex.i2]) with (@nil string).
    rewrite Hincl, Hexcl.
    split; [intros Hc; split; [done|by intros x ?%elem_of_nil]|by intros [Hc _]].
  - change (included_revs ["^" +:+ Ex.i2; Ex.i3]) with [Ex.i3].
    change (excluded_revs ["^" +:+ Ex.i2; Ex.i3]) with [Ex.i2].
    rewrite Hincl, Hexcl.
    change (Ex.ancestors Ex.i3) with [Ex.i1; Ex.i2; Ex.i3].
    match goal with
    | |- context [Py.strip <$> ?l] => change (Py.strip <$> l) with [Ex.i3]
    end.
    split.
    + intros ->%list_elem_of_singleton. split.
      * rewrite !elem_of_cons. tauto.
      * intros x ->%list_elem_of_singleton.
        change (Ex.ancestors Ex.i2) with [Ex.i1; Ex.i2].
        rewrite !elem_of_cons, elem_of_nil. intros [?|[?|?]]; done.
    + intros [Hin Hout]. specialize (Hout Ex.i2).
      change (Ex.ancestors Ex.i2) with [Ex.i1; Ex.i2] in Hout.
      rewrite !elem_of_cons in Hin, Hout. rewrite elem_of_cons.
      destruct Hin as [?|[?|[?|?]]]; [| |by left|by right].
      * destruct Hout; [by left|by left].
      * destruct Hout; [by left|by right; left].
  - change (included_revs [Ex.i3]) with [Ex.i3].
    change (excluded_revs [Ex.i3]) with (@nil string).
    rewrite Hincl, Hexcl.
    split; [intros Hc; split; [done|by intros x ?%elem_of_nil]|by intros [Hc _]].
  - change (included_revs [Ex.i4]) with [Ex.i4].
    change (excluded_revs [Ex.i4]) with (@nil string).
    rewrite Hincl, Hexcl.
    split; [intros Hc; split; [done|by intros x ?%elem_of_nil]|by intros [Hc _]].
Qed.

Lemma rebuild_history_partitions_witness :
  _rebuild_history Ex.Popen Ex.heads_chain = ok Ex.history_chain ∧
  (∀ c, c ∈ [Ex.i3] → c ∉ [Ex.i1; Ex.i2]) ∧
  (∀ c, (∃ n l, Ex.history_chain !! n = Some l ∧ c ∈ l) ↔
        (∃ h, h ∈ Ex.heads_chain ∧ reachable Ex.parents h.2 c)).
Proof.
  assert (_rebuild_history Ex.Popen Ex.heads_chain = ok Ex.history_chain)
    as Hrun by (vm_compute; reflexivity).
  assert (Forall (λ h, commit_id Ex.is_commit h.2 = true) Ex.heads_chain)
    as Hids by (repeat constructor).
  destruct (rebuild_history_partitions Ex.parents Ex.is_commit Ex.Popen
              Ex.heads_chain Ex.history_chain ex_git_log_contract Hids Hrun)
    as (_ & Hdisjoint & Hunion).
  split; [exact Hrun|]. split; [|exact Hunion].
  intros c. apply (Hdisjoint "net" "linux.git"); [discriminate| |];
    vm_compute; reflexivity.
Defined.

(** ** Reading the lines *)

Section ReadLines.

Variable revparse_single : string → revparse.

(** Lines that resolve are grouped and the loop goes on with the next. *)
Lemma read_lines_resolving pre num lines :
  Forall (resolves revparse_single) pre →
  ∃ lines', ∀ stdin w,
    read_lines revparse_single (pre ++ stdin) num lines w
    = read_lines revparse_single stdin (length pre + num) lines' w.
Proof.
  intros Hpre. revert num lines.
  induction Hpre as [|line pre (word & h & Hword & Hh) _ IH]; intros num lines.
  - by exists lines.
  - cbn [app read_lines]. rewrite Hword. unfold ok. rewrite Hh.
    destruct (IH (S num) (match lines !! h with
                          | Some group => <[h := group ++ [line]]> lines
                          | None => <[h := [line]]> lines
                          end)) as [lines' Hrest].
    exists lines'. intros stdin w. rewrite Hrest.
    by rewrite Nat.add_succ_r.
Qed.

(** The first line that does not resolve decides how the loop ends. *)
Lemma read_lines_first_failure stdin k line w :
  stdin !! k = Some line →
  Forall (resolves revparse_single) (take k stdin) →
  read_lines revparse_single stdin 0 ∅ w =
  match first_word line with
  | inl e => (raise e, w)
  | inr word =>
      match revparse_single word with
      | RaisesValueError =>
          (raise (SystemExit 1),
           mkWorld (cache w) (stdout w)
             (stderr w +:+ no_hash (S k) line +:+ Py.nl) (rebuilds w))
      | RaisesKeyError =>
          (raise (SystemExit 1),
           mkWorld (cache w) (stdout w)
             (stderr w +:+ not_in_repo (S k) line +:+ Py.nl) (rebuilds w))
      | Commit h =>
          read_lines revparse_single stdin 0 ∅ w
      end
  end.
Proof.
  intros Hk Hpre.
  destruct (read_lines_resolving _ 0 ∅ Hpre) as [lines' Hrun].
  destruct (first_word line) as [e|word] eqn:Hword;
    [|destruct (revparse_single word) as [h| |] eqn:Hrev; [done| |]].
  all: rewrite <- (take_drop_middle _ _ _ Hk), Hrun.
  all: cbn [read_lines]; rewrite Hword; try rewrite Hrev.
  all: rewrite ?length_take_le
         by (apply Nat.lt_le_incl; by eapply lookup_lt_Some).
  all: by rewrite ?Nat.add_0_r.
Qed.

End ReadLines.

Section Script.

Variable revparse_single : string → revparse.
Variable git_config : list string * Z.
Variable Popen : list string → list string * Z.
Variable pformat : option (list Head) → string.

Let run := main revparse_single git_config Popen pformat false.

(** An exception of the reading loop ends the script. *)
Lemma main_read_fails stdin w e w' :
  read_lines revparse_single stdin 0 ∅ w = (raise e, w') →
  run stdin w = (raise e, w').
Proof.
  intros Hread. unfold run, main, sort_stdin, bind, raise in *.
  by rewrite Hread.
Qed.

(** Lines 202-210 after a run of the generator: the sorted lines go to
    standard output; when entries are left, the heading goes to standard
    error, the lines left go to standard output and the status is 1;
    when none is left the script ends with status 0. *)
Lemma main_report stdin w lines w1 entries lines' w2 :
  read_lines revparse_single stdin 0 ∅ w = (ok lines, w1) →
  git_sort revparse_single git_config Popen lines w1
    = (ok (entries, lines'), w2) →
  let sorted := Py.join EmptyString (entries ≫= value) in
  let left := Py.join EmptyString (values lines' ≫= id) in
  run stdin w =
  if bool_decide (size lines' ≠ 0%nat) then
    (raise (SystemExit 1),
     mkWorld (cache w2)
       ((stdout w2 +:+ sorted +:+ EmptyString) +:+ left +:+ EmptyString)
       (stderr w2 +:+ not_upstream +:+ Py.nl) (rebuilds w2))
  else
    (ok (),
     mkWorld (cache w2) (stdout w2 +:+ sorted +:+ EmptyString)
       (stderr w2) (rebuilds w2)).
Proof.
  intros Hread Hsort. unfold run, main, sort_stdin, bind, ok in *.
  rewrite Hread, Hsort. unfold print, print_stderr, sys_exit, throw, ret.
  cbn [cache stdout stderr rebuilds].
  by case_bool_decide.
Qed.

End Script.

(** C7, as amended: when line [k+1] is the first line that does not
    resolve and its first word is refused by [revparse_single], as no
    revision or as a revision that names nothing, the script writes the
    message for this case with the number [k+1] of the line on standard
    error, writes nothing else, and exits with status 1 without reading
    further. *)
Theorem first_bad_line_is_reported
    (revparse_single : string → revparse) (git_config : list string * Z)
    (Popen : list string → list string * Z)
    (pformat : option (list Head) → string)
    (stdin : list string) (k : nat) (line word : string) (w : World) :
  stdin !! k = Some line →
  Forall (resolves revparse_single) (take k stdin) →
  first_word line = ok word →
  revparse_single word = RaisesValueError ∨
  revparse_single word = RaisesKeyError →
  let r := main revparse_single git_config Popen pformat false stdin w in
  reports_line (S k) line w r ∧
  exit_status r.1 = 1%Z ∧ cache r.2 = cache w ∧ rebuilds r.2 = rebuilds w ∧
  (revparse_single word = RaisesValueError →
     stderr r.2 = stderr w +:+ no_hash (S k) line +:+ Py.nl) ∧
  (revparse_single word = RaisesKeyError →
     stderr r.2 = stderr w +:+ not_in_repo (S k) line +:+ Py.nl).
Proof.
  intros Hk Hpre Hword Hbad r.
  pose proof (read_lines_first_failure revparse_single stdin k line w Hk Hpre)
    as Hread.
  rewrite Hword in Hread. unfold ok in Hread.
  unfold reports_line. subst r.
  destruct Hbad as [Hbad|Hbad]; rewrite Hbad in Hread;
    rewrite (main_read_fails _ git_config Popen pformat _ _ _ _ Hread);
    cbn [fst snd cache stdout stderr rebuilds exit_status raise];
    repeat split; auto; intros Hother; rewrite Hbad in Hother; discriminate.
Qed.

Lemma first_bad_line_is_reported_witness :
  let stdin := [Ex.i2 +:+ " mainline" +:+ Py.nl; "not-a-hash" +:+ Py.nl] in
  let r := main Ex.revparse_single Ex.config_chain Ex.Popen Ex.pformat false
             stdin (start empty_cache) in
  r.1 = raise (SystemExit 1) ∧
  stderr r.2 = EmptyString +:+ no_hash 2 ("not-a-hash" +:+ Py.nl) +:+ Py.nl.
Proof.
  intros stdin r.
  destruct (first_bad_line_is_reported Ex.revparse_single Ex.config_chain
              Ex.Popen Ex.pformat stdin 1 ("not-a-hash" +:+ Py.nl) "not-a-hash"
              (start empty_cache))
    as ((Hexit & _) & _ & _ & _ & Herr & _).
  - reflexivity.
  - constructor; [|constructor].
    exists Ex.i2, Ex.i2. split; vm_compute; reflexivity.
  - vm_compute; reflexivity.
  - left. vm_compute; reflexivity.
  - split; [exact Hexit|]. apply Herr. vm_compute; reflexivity.
Defined.

(** C7, as stated, fails for a bad line that is not the first one. With
    two lines that are no revisions the script reports line 1 and stops, so
    line 2 is never reported; after a line without a word the script ends
    with [IndexError] and reports no line. *)
Lemma later_bad_line_is_not_reported :
  (let stdin := ["not-a-hash" +:+ Py.nl; "neither" +:+ Py.nl] in
   let w := start empty_cache in
   stdin !! 1%nat = Some ("neither" +:+ Py.nl) ∧
   first_word ("neither" +:+ Py.nl) = ok "neither" ∧
   Ex.revparse_single "neither" = RaisesValueError ∧
   reports_line 1 ("not-a-hash" +:+ Py.nl) w
     (main Ex.revparse_single Ex.config_chain Ex.Popen Ex.pformat false stdin w) ∧
   ¬ reports_line 2 ("neither" +:+ Py.nl) w
     (main Ex.revparse_single Ex.config_chain Ex.Popen Ex.pformat false stdin w)) ∧
  (let stdin := [Py.nl; "not-a-hash" +:+ Py.nl] in
   let w := start empty_cache in
   stdin !! 1%nat = Some ("not-a-hash" +:+ Py.nl) ∧
   first_word ("not-a-hash" +:+ Py.nl) = ok "not-a-hash" ∧
   Ex.revparse_single "not-a-hash" = RaisesValueError ∧
   main Ex.revparse_single Ex.config_chain Ex.Popen Ex.pformat false stdin w
     = (raise IndexError, w) ∧
   ¬ reports_line 2 ("not-a-hash" +:+ Py.nl) w
     (main Ex.revparse_single Ex.config_chain Ex.Popen Ex.pformat false stdin w)).
Proof.
  split; intros stdin w; (split; [reflexivity|]);
    (split; [vm_compute; reflexivity|]); (split; [vm_compute; reflexivity|]).
  - split.
    + split; [vm_compute; reflexivity|]. split; [vm_compute; reflexivity|].
      left. vm_compute; reflexivity.
    + intros (_ & _ & [Herr|Herr]); vm_compute in Herr; discriminate.
  - split; [vm_compute; reflexivity|].
    intros (Hexit & _). vm_compute in Hexit. discriminate.
Qed.

(** C8: a line that is empty or all whitespace has no first word:
    [line.strip().split(None, 1)[0]] raises [IndexError]. The loop over the
    lines does not catch it, and when the line is reached, all lines before
    it having resolved, the script ends with this exception: status 1, no
    message of the script on either stream, nothing rebuilt or stored. *)
Theorem blank_line_raises_IndexError
    (revparse_single : string → revparse) (git_config : list string * Z)
    (Popen : list string → list string * Z)
    (pformat : option (list Head) → string) (line : string) :
  blank line = true →
  Py.split_ws1 (Py.strip line) = [] ∧
  first_word line = raise IndexError ∧
  (∀ stdin num lines w,
     read_lines revparse_single (line :: stdin) num lines w
     = (raise IndexError, w)) ∧
  (∀ stdin k w,
     stdin !! k = Some line →
     Forall (resolves revparse_single) (take k stdin) →
     main revparse_single git_config Popen pformat false stdin w
     = (raise IndexError, w) ∧
     exit_status (@raise unit IndexError) = 1%Z).
Proof.
  intros Hblank. pose proof (first_word_blank _ Hblank) as Hword.
  split; [by rewrite strip_blank|]. split; [done|]. split.
  - intros stdin num lines w. cbn [read_lines]. by rewrite Hword.
  - intros stdin k w Hk Hpre. split; [|done].
    apply main_read_fails.
    rewrite (read_lines_first_failure revparse_single stdin k line w Hk Hpre).
    by rewrite Hword.
Qed.

Lemma blank_line_raises_IndexError_witness :
  main Ex.revparse_single Ex.config_chain Ex.Popen Ex.pformat false
    [Ex.i2 +:+ " mainline" +:+ Py.nl; " " +:+ Py.nl; Ex.i1 +:+ Py.nl]
    (start empty_cache)
  = (raise IndexError, start empty_cache).
Proof.
  destruct (blank_line_raises_IndexError Ex.revparse_single Ex.config_chain
              Ex.Popen Ex.pformat (" " +:+ Py.nl))
    as (_ & _ & _ & Hmain); [vm_compute; reflexivity|].
  apply (Hmain _ 1%nat); [reflexivity|].
  constructor; [|constructor].
  exists Ex.i2, Ex.i2. split; vm_compute; reflexivity.
Defined.

(** C1, on an input with a commit of the checkout that no head reaches: the
    heading goes to standard error and the line that was not found goes to
    standard output, after the sorted lines; the status is 1. *)
Theorem lines_not_upstream_go_to_stdout :
  let local := Ex.i4 +:+ " local fix" +:+ Py.nl in
  let upstream := Ex.i1 +:+ " first commit" +:+ Py.nl in
  let r := main Ex.revparse_single Ex.config_chain Ex.Popen Ex.pformat false
             [local; upstream] (start empty_cache) in
  r.1 = raise (SystemExit 1) ∧
  stdout r.2 = upstream +:+ local ∧
  stderr r.2 = not_upstream +:+ Py.nl.
Proof. repeat split; vm_compute; reflexivity. Qed.

(** ** Runs of the script on the example repository *)

(** A commit that stands in the histories of two heads is yielded once,
    under the first of them. *)
Example commit_in_two_histories_yielded_once :
  let history : History :=
    <["net" := [Ex.i1; Ex.i3]]> (<["linux.git" := [Ex.i1; Ex.i2]]> ∅) in
  let mapping : gmap string (list string) := <[Ex.i1 := ["first"]]> ∅ in
  (sort_heads Ex.heads_chain history mapping).1.1
    = [(Ex.i1, mkSortedEntry "linux.git" ["first"])] ∧
  (sort_heads Ex.heads_chain history mapping).1.2 = ∅.
Proof. split; vm_compute; reflexivity. Qed.

(** Without a recognised remote the lines are sorted along the history of
    the checkout: root first. *)
Example lines_sorted_along_checkout :
  let r := main Ex.revparse_single Ex.config_elsewhere Ex.Popen Ex.pformat
             false
             [Ex.i3 +:+ " third" +:+ Py.nl;
              Ex.i1 +:+ " first" +:+ Py.nl;
              Ex.i2 +:+ " second" +:+ Py.nl]
             (start empty_cache) in
  r.1 = ok () ∧ exit_status r.1 = 0%Z ∧
  stdout r.2 = (Ex.i1 +:+ " first" +:+ Py.nl) +:+
               (Ex.i2 +:+ " second" +:+ Py.nl) +:+
               (Ex.i3 +:+ " third" +:+ Py.nl) ∧
  stderr r.2 = EmptyString ∧
  heads_key (cache r.2) = Some [("HEAD", Ex.i4)].
Proof. repeat split; vm_compute; reflexivity. Qed.

(** A commit that only the second head reaches is sorted after the commits
    of the first head, whatever the order of the input. *)
Example lines_sorted_along_chain :
  let r := main Ex.revparse_single Ex.config_chain Ex.Popen Ex.pformat false
             [Ex.i3 +:+ " net fix" +:+ Py.nl;
              Ex.i2 +:+ " mainline" +:+ Py.nl]
             (start empty_cache) in
  r.1 = ok () ∧
  stdout r.2 = (Ex.i2 +:+ " mainline" +:+ Py.nl) +:+
               (Ex.i3 +:+ " net fix" +:+ Py.nl) ∧
  cache r.2 = mkCache (Some Ex.heads_chain) (Some Ex.history_chain).
Proof. repeat split; vm_compute; reflexivity. Qed.

(** * Further properties *)

(** ** Words of a line *)

Lemma lstrip_blank_iff s : Py.lstrip s = EmptyString ↔ blank s = true.
Proof.
  split; [|apply lstrip_blank].
  induction s as [|c s IH]; simpl; [done|].
  destruct (Py.isspace c); [done|discriminate].
Qed.

Lemma lstrip_starts_word s : blank s = false → starts_word (Py.lstrip s) = true.
Proof.
  induction s as [|c s IH]; simpl; [done|].
  destruct (Py.isspace c) eqn:Hc; simpl; [done|]. by rewrite Hc.
Qed.

Lemma lstrip_id s : starts_word s = true → Py.lstrip s = s.
Proof. destruct s as [|c s]; simpl; [done|]. by destruct (Py.isspace c). Qed.

Lemma rstrip_String c s :
  Py.isspace c = false → Py.rstrip (String c s) = String c (Py.rstrip s).
Proof. intros Hc. simpl. rewrite Hc. by destruct (Py.rstrip s). Qed.

Lemma rstrip_word_end s : word_end s = true → word_end (Py.rstrip s) = true.
Proof.
  destruct s as [|c s]; simpl; [done|]. intros Hc. rewrite Hc.
  by destruct (Py.rstrip s).
Qed.

(** The first word of a string and what follows it. *)
Lemma span_word_spec s :
  s = (Py.span_word s).1 +:+ (Py.span_word s).2 ∧
  no_space (Py.span_word s).1 = true ∧
  word_end (Py.span_word s).2 = true.
Proof.
  induction s as [|c s (IH1 & IH2 & IH3)]; simpl; [done|].
  destruct (Py.isspace c) eqn:Hc; simpl; [by rewrite Hc|].
  destruct (Py.span_word s) as [w r]. simpl in *.
  rewrite Hc. split; [by rewrite IH1 at 1|done].
Qed.

Lemma span_word_app w r :
  no_space w = true → word_end r = true → Py.span_word (w +:+ r) = (w, r).
Proof.
  intros Hw Hr. induction w as [|c w IH]; simpl in *.
  - destruct r as [|c r]; simpl in *; [done|]. by rewrite Hr.
  - apply andb_prop in Hw as [Hc Hw]. apply negb_true_iff in Hc.
    rewrite Hc, IH by done. done.
Qed.

Lemma rstrip_word_app w r :
  no_space w = true → Py.rstrip (w +:+ r) = w +:+ Py.rstrip r.
Proof.
  intros Hw. induction w as [|c w IH]; [done|].
  simpl in Hw. apply andb_prop in Hw as [Hc Hw]. apply negb_true_iff in Hc.
  change (String c w +:+ r) with (String c (w +:+ r)).
  rewrite rstrip_String, IH by done. done.
Qed.

(** [line.strip().split(None, 1)] begins with the first word of the line. *)
Lemma split_ws1_strip line :
  blank line = false →
  ∃ w r rest,
    Py.lstrip line = w +:+ r ∧ no_space w = true ∧ w ≠ EmptyString ∧
    word_end r = true ∧ Py.split_ws1 (Py.strip line) = w :: rest.
Proof.
  intros Hline. pose proof (lstrip_starts_word _ Hline) as Hstart.
  destruct (span_word_spec (Py.lstrip line)) as (Happ & Hw & Hr).
  destruct (Py.span_word (Py.lstrip line)) as [w r]. simpl in *.
  assert (w ≠ EmptyString) as Hne.
  { intros ->. simpl in Happ. rewrite Happ in Hstart.
    destruct r as [|c r]; simpl in *; [done|]. by rewrite Hr in Hstart. }
  assert (starts_word (w +:+ Py.rstrip r) = true) as Hstart'.
  { destruct w as [|c w]; [done|]. simpl in *. by destruct (Py.isspace c). }
  exists w, r.
  unfold Py.strip, Py.split_ws1. rewrite Happ, rstrip_word_app by done.
  rewrite lstrip_id by done.
  destruct (w +:+ Py.rstrip r) as [|c s] eqn:E; [done|]. rewrite <- E.
  rewrite span_word_app by (done || by apply rstrip_word_end).
  destruct (Py.lstrip (Py.rstrip r)); eauto 10.
Qed.

(** X1: [line.strip().split(None, 1)[0]] raises [IndexError] exactly for the
    lines that are empty or all whitespace, and raises nothing else; for
    every other line it is the first word: the characters after the leading
    whitespace, up to the next whitespace or the end of the line. *)
Theorem first_word_cases (line : string) :
  (blank line = true ∧ first_word line = raise IndexError) ∨
  (blank line = false ∧
   ∃ w r, first_word line = ok w ∧ Py.lstrip line = w +:+ r ∧
          w ≠ EmptyString ∧ no_space w = true ∧ word_end r = true).
Proof.
  destruct (blank line) eqn:Hline.
  - left. split; [done|]. by apply first_word_blank.
  - right. split; [done|].
    destruct (split_ws1_strip line Hline) as (w & r & rest & H1 & H2 & H3 & H4 & H5).
    exists w, r. unfold first_word. rewrite H5. done.
Qed.

(** ** The configured remotes *)

Lemma no_space_app x y : no_space (x +:+ y) = no_space x && no_space y.
Proof.
  induction x as [|c x IH]; simpl; [done|].
  rewrite IH. by rewrite andb_assoc.
Qed.

Lemma split_char_cons sep s : ∃ w ws, Py.split_char sep s = w :: ws.
Proof.
  induction s as [|c s (w & ws & IH)]; simpl; [by eauto|].
  rewrite IH. destruct (Ascii.eqb c sep); eauto.
Qed.

(** A split at the first dot. *)
Lemma split_char_dot x y :
  no_dot x = true →
  Py.split_char "."%char (x +:+ String "."%char y)
  = x :: Py.split_char "."%char y.
Proof.
  intros Hx. induction x as [|c x IH]; simpl in *.
  - by destruct (split_char_cons "."%char y) as (w & ws & ->).
  - apply andb_prop in Hx as [Hc Hx]. apply negb_true_iff in Hc.
    rewrite IH, Hc by done. done.
Qed.

(** X2: a line [remote.<a>.<tail> <url>] of the output of [git config]
    records [<a>] as the remote of [<url>], where [<a>] is what stands
    between the first two dots of the key. For a remote without a dot in
    its name ([<tail>] is [url]) this is the name of the remote; the name of
    a remote with a dot is cut at its first dot. *)
Theorem add_remote_line
    (remotes : gmap string string) (a tail url : string) :
  no_space a = true → no_dot a = true → no_space tail = true →
  starts_word url = true →
  add_remote remotes (("remote." +:+ a +:+ "." +:+ tail) +:+ " " +:+ url)
  = ok (<[url := a]> remotes).
Proof.
  intros Ha Hdot Htail Hurl. unfold add_remote, Py.split_ws1.
  set (key := "remote." +:+ a +:+ "." +:+ tail).
  assert (no_space key = true) as Hkey.
  { unfold key. rewrite !no_space_app, Ha, Htail. reflexivity. }
  rewrite lstrip_id by done.
  destruct (key +:+ " " +:+ url) as [|c0 s0] eqn:E;
    [unfold key in E; discriminate E|]. rewrite <- E.
  rewrite span_word_app by done.
  change (" " +:+ url) with (String " " url). cbn [Py.lstrip].
  change (Py.isspace " ") with true. cbn iota.
  rewrite lstrip_id by done.
  destruct url as [|c url]; [done|].
  change key with ("remote" +:+ String "."%char (a +:+ String "."%char tail)).
  rewrite split_char_dot by done.
  rewrite split_char_dot by done.
  done.
Qed.

Lemma add_remote_line_witness :
  add_remote ∅ "remote.origin.url git://git.kernel.org/pub/scm/linux/kernel/git/torvalds/linux.git"
  = ok (<["git://git.kernel.org/pub/scm/linux/kernel/git/torvalds/linux.git" := "origin"]> ∅) ∧
  add_remote ∅ "remote.my.fork.url https://example.org/linux.git"
  = ok (<["https://example.org/linux.git" := "my"]> ∅).
Proof.
  split.
  - apply (add_remote_line ∅ "origin" "url"
      "git://git.kernel.org/pub/scm/linux/kernel/git/torvalds/linux.git");
      reflexivity.
  - apply (add_remote_line ∅ "my" "fork.url" "https://example.org/linux.git");
      reflexivity.
Defined.

(** ** The matched heads *)

Section MatchHeads.

Variable revparse_single : string → revparse.
Variable remotes : gmap string string.

Lemma link_heads_names name urls :
  masters_resolve revparse_single remotes urls →
  (link_heads revparse_single remotes name urls).*1
  = replicate (length (configured remotes urls)) name.
Proof.
  unfold link_heads, configured.
  induction urls as [|url urls IH]; intros Hres; [done|].
  assert (masters_resolve revparse_single remotes urls) as Hres'.
  { intros u r Hu. apply Hres, elem_of_cons. by right. }
  rewrite filter_cons. cbn [omap list_omap].
  destruct (remotes !! url) as [remote|] eqn:Hurl.
  - destruct (Hres url remote) as [id Hid]; [by apply elem_of_cons; left|done|].
    rewrite Hid. rewrite decide_True by (by eexists).
    cbn [fmap list_fmap length replicate fst]. f_equal. by apply IH.
  - rewrite decide_False by (by intros [? ?]). by apply IH.
Qed.

(** The loop over the urls of one entry returns exactly when the master of
    every configured remote among them resolves, and then appends the heads
    of the entry to the heads it was given. *)
Lemma match_urls_ok_iff name urls acc heads :
  match_urls revparse_single remotes name urls acc = ok heads ↔
  masters_resolve revparse_single remotes urls ∧
  heads = acc ++ link_heads revparse_single remotes name urls.
Proof.
  revert acc. unfold link_heads.
  induction urls as [|url urls IH]; intros acc; cbn [match_urls omap list_omap].
  - rewrite app_nil_r. split.
    + intros [= <-]. split; [|done]. by intros u r ?%elem_of_nil.
    + by intros [_ ->].
  - destruct (remotes !! url) as [remote|] eqn:Hurl.
    + destruct (revparse_single (remote +:+ "/master")) as [id| |] eqn:Hid.
      * rewrite IH, <- app_assoc. cbn [app]. split.
        -- intros [Hres ->]. split; [|done].
           intros u r [->|Hu]%elem_of_cons Hr; [|by eapply Hres].
           rewrite Hurl in Hr. injection Hr as <-. eauto.
        -- intros [Hres ->]. split; [|done].
           intros u r Hu. apply Hres, elem_of_cons. by right.
      * split; [done|]. intros [Hres _].
        destruct (Hres url remote) as [id Hid']; [by apply elem_of_cons; left|done|].
        by rewrite Hid in Hid'.
      * split; [done|]. intros [Hres _].
        destruct (Hres url remote) as [id Hid']; [by apply elem_of_cons; left|done|].
        by rewrite Hid in Hid'.
    + rewrite IH. split.
      * intros [Hres ->]. split; [|done].
        intros u r [->|Hu]%elem_of_cons Hr; [by rewrite Hurl in Hr|by eapply Hres].
      * intros [Hres ->]. split; [|done].
        intros u r Hu. apply Hres, elem_of_cons. by right.
Qed.

Lemma match_heads_ok_iff catalog acc heads :
  match_heads revparse_single remotes catalog acc = ok heads ↔
  (∀ name urls, (name, urls) ∈ catalog →
     masters_resolve revparse_single remotes urls) ∧
  heads = acc ++
    (catalog ≫= λ entry, link_heads revparse_single remotes entry.1 entry.2).
Proof.
  revert acc.
  induction catalog as [|[name urls] catalog IH]; intros acc; cbn [match_heads].
  - rewrite app_nil_r. split.
    + intros [= <-]. split; [|done]. by intros n u ?%elem_of_nil.
    + by intros [_ ->].
  - rewrite bind_cons. cbn [fst snd].
    destruct (match_urls revparse_single remotes name urls acc)
      as [e|heads'] eqn:Hurls; cbn [res_bind].
    + split; [done|]. intros [Hres _].
      assert (match_urls revparse_single remotes name urls acc
              = ok (acc ++ link_heads revparse_single remotes name urls)) as H.
      { apply match_urls_ok_iff. split; [|done].
        apply (Hres name urls), elem_of_cons. by left. }
      by rewrite Hurls in H.
    + apply match_urls_ok_iff in Hurls as [Hres0 ->].
      rewrite IH, <- app_assoc. split.
      * intros [Hres ->]. split; [|done].
        intros n u [[= -> ->]|Hin]%elem_of_cons; [done|by eapply Hres].
      * intros [Hres ->]. split; [|done].
        intros n u Hin. apply (Hres n u), elem_of_cons. by right.
Qed.

End MatchHeads.

(** X3: the loop of [_get_heads] over the catalog returns exactly when the
    master branch of every configured remote of the catalog resolves (a
    remote without one is not skipped: the loop raises), and the list it
    returns has, entry after entry in the order of the catalog, one head
    for each url of the entry that is the url of a configured remote: as
    many heads of one name as the entry has configured urls. *)
Theorem match_heads_one_head_per_configured_url
    (revparse_single : string → revparse) (remotes : gmap string string)
    (catalog : list (string * list string)) (acc heads : list Head) :
  (match_heads revparse_single remotes catalog acc = ok heads ↔
   (∀ name urls, (name, urls) ∈ catalog →
      masters_resolve revparse_single remotes urls) ∧
   heads = acc ++
     (catalog ≫= λ entry, link_heads revparse_single remotes entry.1 entry.2)) ∧
  (match_heads revparse_single remotes catalog acc = ok heads →
   heads.*1 = acc.*1 ++
     (catalog ≫= λ entry, replicate (length (configured remotes entry.2)) entry.1)).
Proof.
  split; [apply match_heads_ok_iff|].
  intros [Hres ->]%match_heads_ok_iff. rewrite fmap_app. f_equal.
  induction catalog as [|[name urls] catalog IH]; [done|].
  rewrite !bind_cons, fmap_app. cbn [fst snd]. f_equal.
  - apply link_heads_names, (Hres name urls), elem_of_cons. by left.
  - apply IH. intros n u Hin. apply (Hres n u), elem_of_cons. by right.
Qed.

Lemma match_heads_one_head_per_configured_url_witness :
  [("linux.git", Ex.i2); ("linux.git", Ex.i1)].*1 =
  (@nil Head).*1 ++ (head_names ≫= λ entry,
              replicate (length (configured remotes_two_urls entry.2)) entry.1).
Proof.
  apply (proj2 (match_heads_one_head_per_configured_url
                  Ex.revparse_single remotes_two_urls head_names []
                  [("linux.git", Ex.i2); ("linux.git", Ex.i1)])).
  vm_compute; reflexivity.
Defined.

(** X4: when no entry of the catalog has more than one configured url, the
    names of the heads [_get_heads] matches are all different, so that the
    builder does not refuse them. *)
Theorem match_heads_unique_names
    (revparse_single : string → revparse) (remotes : gmap string string)
    (heads : list Head) :
  (∀ name urls, (name, urls) ∈ head_names →
     (length (configured remotes urls) ≤ 1)%nat) →
  match_heads revparse_single remotes head_names [] = ok heads →
  NoDup heads.*1.
Proof.
  intros Hone [Hres ->]%match_heads_ok_iff. cbn [app].
  apply (sublist_NoDup _ head_names.*1);
    [apply (bool_decide_unpack _); vm_compute; exact I|].
  revert Hone Hres. generalize head_names. intros catalog Hone Hres.
  induction catalog as [|[name urls] catalog IH]; [done|].
  rewrite bind_cons, fmap_app, fmap_cons. cbn [fst snd].
  change (name :: catalog.*1) with ([name] ++ catalog.*1).
  apply sublist_app.
  - rewrite link_heads_names by (apply (Hres name urls), list_elem_of_here).
    specialize (Hone name urls (list_elem_of_here _ _)).
    destruct (length (configured remotes urls)) as [|[|n]]; cbn [replicate];
      [apply sublist_nil_l|done|lia].
  - apply IH.
    + intros n u Hin. apply (Hone n u), elem_of_cons. by right.
    + intros n u Hin. apply (Hres n u), elem_of_cons. by right.
Qed.

Lemma match_heads_unique_names_witness : NoDup Ex.heads_chain.*1.
Proof.
  apply (match_heads_unique_names Ex.revparse_single remotes_chain
           Ex.heads_chain).
  - intros name urls Hin.
    repeat (apply elem_of_cons in Hin as [[= -> ->]|Hin]);
      [vm_compute; lia..|by apply elem_of_nil in Hin].
  - vm_compute; reflexivity.
Defined.

(** X5: a list [_get_heads] returns is never empty: it is the single head
    [("HEAD", id)] of the checkout, or it starts with a head of the first
    entry of the catalog. *)
Theorem get_heads_shape
    (revparse_single : string → revparse) (git_config : list string * Z)
    (heads : list Head) :
  _get_heads revparse_single git_config = ok heads →
  heads ≠ [] ∧
  ((∃ id, revparse_single "HEAD" = Commit id ∧ heads = [("HEAD", id)]) ∨
   (∃ id rest, heads = ("linux.git", id) :: rest)).
Proof.
  unfold _get_heads.
  destruct (check_output git_config) as [e|lines]; [done|]. cbn [res_bind].
  destruct (read_remotes lines ∅) as [e|remotes]; [done|]. cbn [res_bind].
  destruct (match_heads revparse_single remotes head_names []) as [e|matched];
    [done|]. cbn [res_bind].
  unfold fallback, first_name_differs.
  destruct matched as [|[n id] rest]; cbn.
  - destruct (revparse_single "HEAD") as [id| |]; [|done..].
    intros [= <-]. split; [done|]. left. eauto.
  - case_bool_decide as Hn.
    + destruct (revparse_single "HEAD") as [id'| |]; [|done..].
      intros [= <-]. split; [done|]. left. eauto.
    + intros [= <-]. split; [done|]. right.
      assert (n = "linux.git") as ->
        by (destruct (decide (n = "linux.git")); [done|by destruct Hn]).
      eauto.
Qed.

Lemma get_heads_shape_witness :
  Ex.heads_chain ≠ [] ∧
  ((∃ id, Ex.revparse_single "HEAD" = Commit id ∧ Ex.heads_chain = [("HEAD", id)]) ∨
   (∃ id rest, Ex.heads_chain = ("linux.git", id) :: rest)).
Proof.
  apply (get_heads_shape Ex.revparse_single Ex.config_chain).
  vm_compute; reflexivity.
Defined.

(** ** The history builder: when it returns, and what *)

Section RebuildRuns.

Variable Popen : list string → list string * Z.

Lemma rebuild_loop_outputs heads excluded (hist0 history : History) :
  rebuild_loop Popen heads (caret <$> excluded) hist0 = ok history →
  NoDup heads.*1 ∧
  (∀ n, n ∈ heads.*1 → hist0 !! n = None) ∧
  (∀ n, n ∉ heads.*1 → history !! n = hist0 !! n) ∧
  (∀ i name rev, heads !! i = Some (name, rev) →
     let log := Popen (git_log_args ++
                       (caret <$> excluded ++ (take i heads).*2) ++ [rev]) in
     log.2 = 0%Z ∧ history !! name = Some (Py.strip <$> log.1)).
Proof.
  revert excluded hist0.
  induction heads as [|[name0 rev0] heads IH]; intros excluded hist0 Hrun.
  - injection Hrun as <-. split; [constructor|].
    split; [by intros n ?%elem_of_nil|]. split; [done|].
    intros i name rev Hi. by rewrite lookup_nil in Hi.
  - cbn [rebuild_loop] in Hrun.
    destruct (Popen _) as [out returncode] eqn:Hlog.
    case_bool_decide as Hfresh; [done|].
    case_bool_decide as Hrc; [done|].
    change [caret rev0] with (caret <$> [rev0]) in Hrun.
    rewrite <- fmap_app in Hrun.
    apply IH in Hrun as (Hnd & Hnone & Hkeep & Hlists).
    assert (name0 ∉ heads.*1) as Hnotin.
    { intros Hin. apply Hnone in Hin. by rewrite lookup_insert_eq in Hin. }
    assert (hist0 !! name0 = None) as Hnone0.
    { destruct (hist0 !! name0) eqn:E; [|done]. destruct Hfresh. by eexists. }
    split; [|split; [|split]].
    + rewrite fmap_cons. by apply NoDup_cons.
    + intros n. rewrite fmap_cons.
      intros [->|Hin]%elem_of_cons; [done|].
      specialize (Hnone n Hin).
      rewrite lookup_insert_ne in Hnone; [done|]. by intros ->.
    + intros n. rewrite fmap_cons. intros Hn.
      rewrite Hkeep by (intros ?; apply Hn, elem_of_cons; by right).
      apply lookup_insert_ne. intros ->. apply Hn, elem_of_cons. by left.
    + intros [|i] name rev Hi.
      * injection Hi as -> ->.
        rewrite take_0, fmap_nil, app_nil_r, Hlog. cbn [fst snd]. split.
        -- destruct (decide (returncode = 0%Z)); [done|by destruct Hrc].
        -- rewrite Hkeep by done. apply lookup_insert_eq.
      * specialize (Hlists i name rev Hi).
        rewrite firstn_cons, fmap_cons. cbn [snd].
        by rewrite <- app_assoc in Hlists.
Qed.

Lemma rebuild_loop_returns heads excluded (hist0 : History) :
  NoDup heads.*1 →
  (∀ n, n ∈ heads.*1 → hist0 !! n = None) →
  (∀ i name rev, heads !! i = Some (name, rev) →
     (Popen (git_log_args ++
             (caret <$> excluded ++ (take i heads).*2) ++ [rev])).2 = 0%Z) →
  ∃ history, rebuild_loop Popen heads (caret <$> excluded) hist0 = ok history.
Proof.
  revert excluded hist0.
  induction heads as [|[name0 rev0] heads IH]; intros excluded hist0 Hnd Hnone Hrc.
  - by eexists.
  - cbn [rebuild_loop].
    pose proof (Hrc 0%nat name0 rev0 eq_refl) as Hrc0.
    rewrite take_0, fmap_nil, app_nil_r in Hrc0.
    destruct (Popen _) as [out returncode]. cbn [snd] in Hrc0. subst returncode.
    rewrite fmap_cons in Hnd. apply NoDup_cons in Hnd as [Hnotin Hnd].
    rewrite bool_decide_eq_false_2.
    2:{ rewrite (Hnone name0) by (rewrite fmap_cons; apply list_elem_of_here).
        by intros [? ?]. }
    rewrite bool_decide_eq_false_2 by (by intros ?).
    change [caret rev0] with (caret <$> [rev0]). rewrite <- fmap_app.
    apply IH; [done| |].
    + intros n Hn. rewrite lookup_insert_ne by (by intros ->).
      apply Hnone. rewrite fmap_cons. by apply list_elem_of_further.
    + intros i name rev Hi. rewrite <- app_assoc.
      exact (Hrc (S i) name rev Hi).
Qed.

Lemma rebuild_loop_first_failure heads excluded (hist0 : History) i name rev :
  NoDup heads.*1 →
  (∀ n, n ∈ heads.*1 → hist0 !! n = None) →
  heads !! i = Some (name, rev) →
  (∀ j name' rev', (j < i)%nat → heads !! j = Some (name', rev') →
     (Popen (git_log_args ++
             (caret <$> excluded ++ (take j heads).*2) ++ [rev'])).2 = 0%Z) →
  (Popen (git_log_args ++
          (caret <$> excluded ++ (take i heads).*2) ++ [rev])).2 ≠ 0%Z →
  rebuild_loop Popen heads (caret <$> excluded) hist0
  = raise (Exception (git_log_failed
      (Py.strip <$> (Popen (git_log_args ++
          (caret <$> excluded ++ (take i heads).*2) ++ [rev])).1))).
Proof.
  revert excluded hist0 i.
  induction heads as [|[name0 rev0] heads IH];
    intros excluded hist0 i Hnd Hnone Hi Hbefore Hrc.
  - by rewrite lookup_nil in Hi.
  - cbn [rebuild_loop].
    rewrite fmap_cons in Hnd. apply NoDup_cons in Hnd as [Hnotin Hnd].
    rewrite bool_decide_eq_false_2.
    2:{ rewrite (Hnone name0) by (rewrite fmap_cons; apply list_elem_of_here).
        by intros [? ?]. }
    destruct i as [|i].
    + injection Hi as -> ->.
      rewrite take_0, fmap_nil, app_nil_r in Hrc |- *.
      destruct (Popen _) as [out returncode]. cbn [fst snd] in *.
      by rewrite bool_decide_eq_true_2.
    + pose proof (Hbefore 0%nat name0 rev0 (Nat.lt_0_succ i) eq_refl) as Hrc0.
      rewrite take_0, fmap_nil, app_nil_r in Hrc0.
      destruct (Popen (git_log_args ++ (caret <$> excluded) ++ [rev0]))
        as [out returncode]. cbn [snd] in Hrc0. subst returncode.
      rewrite bool_decide_eq_false_2 by (by intros ?).
      change [caret rev0] with (caret <$> [rev0]). rewrite <- fmap_app.
      rewrite firstn_cons, fmap_cons in Hrc |- *. cbn [snd] in Hrc |- *.
      assert (∀ l : list string,
                excluded ++ rev0 :: l = (excluded ++ [rev0]) ++ l) as Hmid
        by (intros l; by rewrite <- app_assoc).
      rewrite (Hmid (take i heads).*2) in Hrc |- *.
      apply IH; [done| |done| |done].
      * intros n Hn. rewrite lookup_insert_ne by (by intros ->).
        apply Hnone. rewrite fmap_cons. by apply list_elem_of_further.
      * intros j name' rev' Hj Hhead. rewrite <- app_assoc.
        apply (Hbefore (S j) name' rev'); [lia|done].
Qed.

End RebuildRuns.

(** X6: [_rebuild_history] returns a history exactly when the names of the
    heads are all different and every [git log] it runs, for each head with
    the revisions of the heads before it excluded, exits with status 0. *)
Theorem rebuild_history_returns_iff
    (Popen : list string → list string * Z) (heads : list Head) :
  (∃ history, _rebuild_history Popen heads = ok history) ↔
  NoDup heads.*1 ∧
  ∀ i name rev, heads !! i = Some (name, rev) →
    (git_log_of Popen heads i rev).2 = 0%Z.
Proof.
  unfold git_log_of. split.
  - intros [history Hrun]. split.
    + destruct (decide (NoDup heads.*1)) as [|Hdup]; [done|].
      destruct (rebuild_loop_duplicate Popen heads [] ∅ (or_intror Hdup))
        as [msg Hfail].
      unfold _rebuild_history in Hrun. by rewrite Hfail in Hrun.
    + intros i name rev Hi.
      destruct (decide ((Popen (git_log_args ++
                  (caret <$> (take i heads).*2) ++ [rev])).2 = 0%Z))
        as [|Hrc]; [done|].
      destruct (rebuild_loop_returncode Popen heads [] ∅ i name rev Hi Hrc)
        as [msg Hfail].
      unfold _rebuild_history in Hrun. cbn [fmap list_fmap] in Hfail.
      by rewrite Hfail in Hrun.
  - intros [Hnd Hrc].
    apply (rebuild_loop_returns Popen heads [] ∅); [done|done|].
    intros i name rev Hi. exact (Hrc i name rev Hi).
Qed.

(** X7: in a history that [_rebuild_history] returns, the names with a
    list are the names of the heads, and the list of a head holds the lines
    its [git log] printed, each stripped of surrounding whitespace, in the
    order printed. *)
Theorem rebuild_history_stores_outputs
    (Popen : list string → list string * Z) (heads : list Head)
    (history : History) :
  _rebuild_history Popen heads = ok history →
  (∀ n, is_Some (history !! n) ↔ n ∈ heads.*1) ∧
  (∀ i name rev, heads !! i = Some (name, rev) →
     history !! name = Some (Py.strip <$> (git_log_of Popen heads i rev).1)).
Proof.
  intros Hrun. unfold _rebuild_history in Hrun.
  apply (rebuild_loop_outputs Popen heads []) in Hrun
    as (Hnd & _ & Hkeep & Hlists).
  split.
  - intros n. split.
    + intros Hsome. destruct (decide (n ∈ heads.*1)) as [|Hn]; [done|].
      rewrite (Hkeep n Hn), lookup_empty in Hsome. by destruct Hsome.
    + intros ([n' rev] & -> & Hin)%list_elem_of_fmap.
      apply list_elem_of_lookup in Hin as [i Hi].
      destruct (Hlists i n' rev Hi) as [_ Hl]. cbn [fst]. rewrite Hl. by eexists.
  - intros i name rev Hi. by destruct (Hlists i name rev Hi) as [_ Hl].
Qed.

Lemma rebuild_history_stores_outputs_witness :
  (∀ n, is_Some (Ex.history_chain !! n) ↔ n ∈ Ex.heads_chain.*1) ∧
  (∀ i name rev, Ex.heads_chain !! i = Some (name, rev) →
     Ex.history_chain !! name
     = Some (Py.strip <$> (git_log_of Ex.Popen Ex.heads_chain i rev).1)).
Proof.
  apply (rebuild_history_stores_outputs Ex.Popen Ex.heads_chain).
  vm_compute; reflexivity.
Defined.

(** X8: when the names of the heads are all different, the first [git log]
    that exits with another status than 0 ends [_rebuild_history] with an
    exception whose message holds what that [git log] printed. *)
Theorem rebuild_history_first_failure
    (Popen : list string → list string * Z) (heads : list Head)
    (i : nat) (name rev : string) :
  NoDup heads.*1 →
  heads !! i = Some (name, rev) →
  (∀ j name' rev', (j < i)%nat → heads !! j = Some (name', rev') →
     (git_log_of Popen heads j rev').2 = 0%Z) →
  (git_log_of Popen heads i rev).2 ≠ 0%Z →
  _rebuild_history Popen heads
  = raise (Exception
      ("git log exited with an error:" +:+ Py.nl +:+
       Py.join Py.nl (Py.strip <$> (git_log_of Popen heads i rev).1))).
Proof.
  intros Hnd Hi Hbefore Hrc.
  apply (rebuild_loop_first_failure Popen heads [] ∅ i name rev); done.
Qed.

Lemma rebuild_history_first_failure_witness :
  _rebuild_history Ex.Popen [("linux.git", Ex.i2); ("net", Ex.i1)]
  = raise (Exception
      ("git log exited with an error:" +:+ Py.nl +:+ "fatal: bad revision")).
Proof.
  apply (rebuild_history_first_failure Ex.Popen
           [("linux.git", Ex.i2); ("net", Ex.i1)] 1 "net" Ex.i1).
  - apply (bool_decide_unpack _). vm_compute. exact I.
  - reflexivity.
  - intros [|j] name' rev' Hj Hhead; [|lia].
    injection Hhead as <- <-. vm_compute; reflexivity.
  - vm_compute. discriminate.
Defined.

(** ** The history cache: what it holds *)

(** The two ways through [_get_history]. *)
Lemma get_history_miss
    (Popen : list string → list string * Z) (heads : list Head) (w : World) :
  heads_key (cache w) ≠ Some heads →
  _get_history Popen heads w =
  match _rebuild_history Popen heads with
  | inl e =>
      (inl e, mkWorld (cache w) (stdout w) (stderr w) (S (rebuilds w)))
  | inr history =>
      (inr history,
       mkWorld (mkCache (Some heads) (Some history)) (stdout w) (stderr w)
         (S (rebuilds w)))
  end.
Proof.
  intros Hmiss. destruct w as [[hk histk] out err n].
  unfold _get_history, cached_heads, except_KeyError, bind, rebuild,
    cache_get_heads, cache_set_heads, cache_set_history, set_cache, ret, ok,
    raise.
  cbn [cache heads_key history_key stdout stderr rebuilds] in *.
  destruct hk as [c_heads|]; rewrite bool_decide_eq_true_2 by done;
    by destruct (_rebuild_history Popen heads).
Qed.

Lemma get_history_hit
    (Popen : list string → list string * Z) (heads : list Head) (w : World) :
  heads_key (cache w) = Some heads →
  _get_history Popen heads w =
  (match history_key (cache w) with
   | Some history => inr history
   | None => inl KeyError
   end, w).
Proof.
  intros Hhit. destruct w as [[hk histk] out err n].
  cbn in Hhit. subst hk.
  unfold _get_history, cached_heads, except_KeyError, bind,
    cache_get_heads, cache_get_history, ret, ok, raise.
  cbn [cache heads_key history_key].
  by rewrite bool_decide_eq_false_2 by (intros Hx; by apply Hx).
Qed.

(** [_get_history] prints nothing. *)
Lemma get_history_streams
    (Popen : list string → list string * Z) (heads : list Head) (w : World) :
  stdout (_get_history Popen heads w).2 = stdout w ∧
  stderr (_get_history Popen heads w).2 = stderr w.
Proof.
  destruct (decide (heads_key (cache w) = Some heads)) as [Hhit|Hmiss].
  - by rewrite get_history_hit.
  - rewrite get_history_miss by done.
    by destruct (_rebuild_history Popen heads).
Qed.

(** X9: when [_get_history] returns a history, rebuilt or not, the cache
    holds the heads it was called with and the history it returns, and
    nothing was printed. *)
Theorem get_history_result_is_cached
    (Popen : list string → list string * Z) (heads : list Head)
    (history : History) (w w' : World) :
  _get_history Popen heads w = (ok history, w') →
  cache w' = mkCache (Some heads) (Some history) ∧
  stdout w' = stdout w ∧ stderr w' = stderr w.
Proof.
  intros Hrun.
  destruct (decide (heads_key (cache w) = Some heads)) as [Hhit|Hmiss].
  - rewrite (get_history_hit _ _ _ Hhit) in Hrun.
    destruct (history_key (cache w)) as [cached|] eqn:Hcached; [|done].
    injection Hrun as <- <-. split; [|done].
    destruct w as [[hk histk] out err n]. cbn in *. by subst.
  - rewrite (get_history_miss _ _ _ Hmiss) in Hrun.
    destruct (_rebuild_history Popen heads) as [e|rebuilt]; [done|].
    by injection Hrun as <- <-.
Qed.

Lemma get_history_result_is_cached_witness :
  cache (_get_history Ex.Popen Ex.heads_chain (start empty_cache)).2
  = mkCache (Some Ex.heads_chain) (Some Ex.history_chain).
Proof.
  apply (get_history_result_is_cached Ex.Popen Ex.heads_chain Ex.history_chain
           (start empty_cache)).
  vm_compute; reflexivity.
Defined.

(** X10: the cache holds one record. After a resolution of the heads [a],
    a resolution of other heads [b] and then one of [a] again rebuild both
    times, and the cache ends with the record of [a]. *)
Theorem get_history_alternating_heads_rebuild
    (Popen : list string → list string * Z) (a b : list Head)
    (history_a history_b : History) (w w1 : World) :
  a ≠ b →
  _rebuild_history Popen a = ok history_a →
  _rebuild_history Popen b = ok history_b →
  _get_history Popen a w = (ok history_a, w1) →
  let r2 := _get_history Popen b w1 in
  let r3 := _get_history Popen a r2.2 in
  r2.1 = ok history_b ∧ r3.1 = ok history_a ∧
  rebuilds r3.2 = S (S (rebuilds w1)) ∧
  cache r3.2 = mkCache (Some a) (Some history_a).
Proof.
  intros Hab Ha Hb Hrun r2 r3.
  assert (heads_key (cache w1) = Some a) as Hc1.
  { destruct (decide (heads_key (cache w) = Some a)) as [Hhit|Hmiss].
    - rewrite (get_history_hit _ _ _ Hhit) in Hrun.
      destruct (history_key (cache w)); [|done]. by injection Hrun as _ <-.
    - rewrite (get_history_miss _ _ _ Hmiss), Ha in Hrun.
      by injection Hrun as <-. }
  assert (r2 = (ok history_b,
                mkWorld (mkCache (Some b) (Some history_b)) (stdout w1)
                  (stderr w1) (S (rebuilds w1)))) as Hr2.
  { subst r2. rewrite get_history_miss, Hb; [done|].
    rewrite Hc1. by intros [= ->]. }
  assert (r3 = (ok history_a,
                mkWorld (mkCache (Some a) (Some history_a)) (stdout w1)
                  (stderr w1) (S (S (rebuilds w1))))) as Hr3.
  { subst r3. rewrite Hr2. cbn [snd].
    rewrite get_history_miss, Ha; [done|].
    cbn. by intros [= ->]. }
  by rewrite Hr2, Hr3.
Qed.

Lemma get_history_alternating_heads_rebuild_witness :
  let w1 := (_get_history Ex.Popen Ex.heads_chain (start empty_cache)).2 in
  let r2 := _get_history Ex.Popen [("HEAD", Ex.i4)] w1 in
  let r3 := _get_history Ex.Popen Ex.heads_chain r2.2 in
  rebuilds r3.2 = S (S (rebuilds w1)) ∧
  cache r3.2 = mkCache (Some Ex.heads_chain) (Some Ex.history_chain).
Proof.
  intros w1 r2 r3.
  destruct (get_history_alternating_heads_rebuild Ex.Popen Ex.heads_chain
              [("HEAD", Ex.i4)] Ex.history_chain
              (<["HEAD" := [Ex.i1; Ex.i2; Ex.i3; Ex.i4]]> ∅)
              (start empty_cache) w1) as (_ & _ & Hn & Hc);
    [discriminate|vm_compute; reflexivity..|].
  split; [exact Hn|exact Hc].
Defined.

(** ** The generator: what it yields and what it leaves *)

Section Yields.

Context {V : Type}.

Lemma sort_commits_keys name commits (mapping : gmap string V) :
  let out := (sort_commits name commits mapping).1 in
  let mapping' := (sort_commits name commits mapping).2 in
  out.*1 `sublist_of` commits ∧
  (∀ c, c ∈ out.*1 ↔ c ∈ commits ∧ is_Some (mapping !! c)) ∧
  (∀ c, mapping' !! c = if decide (c ∈ commits) then None else mapping !! c) ∧
  (∀ c entry, (c, entry) ∈ out → head_name entry = name).
Proof.
  revert mapping. induction commits as [|commit commits IH]; intros mapping.
  - cbn. split; [done|]. split; [|split].
    + intros c. split; [by intros ?%elem_of_nil|by intros [?%elem_of_nil _]].
    + intros c. by rewrite decide_False by apply not_elem_of_nil.
    + by intros c entry ?%elem_of_nil.
  - cbn [sort_commits].
    destruct (mapping !! commit) as [v|] eqn:Hc.
    + specialize (IH (delete commit mapping)).
      destruct (sort_commits name commits (delete commit mapping)) as [out m'].
      cbn [fst snd] in *. destruct IH as (Hsub & Hmem & Hleft & Hname).
      rewrite fmap_cons. cbn [fst]. split; [by apply sublist_skip|].
      split; [|split].
      * intros c. rewrite !elem_of_cons, Hmem. split.
        -- intros [->|[Hin Hsome]]; [split; [by left|by eexists]|].
           split; [by right|].
           destruct Hsome as [x Hx]. apply lookup_delete_Some in Hx as [_ Hx].
           by eexists.
        -- intros [[->|Hin] Hsome]; [by left|].
           destruct (decide (c = commit)) as [->|Hne]; [by left|].
           right. split; [done|]. by rewrite lookup_delete_ne.
      * intros c. rewrite Hleft.
        destruct (decide (c ∈ commits)) as [Hin|Hout].
        -- rewrite decide_True by (by apply elem_of_cons; right). done.
        -- destruct (decide (c = commit)) as [->|Hne].
           ++ rewrite decide_True by (by apply elem_of_cons; left).
              apply lookup_delete_eq.
           ++ rewrite decide_False
                by (intros [?|?]%elem_of_cons; [by apply Hne|by apply Hout]).
              by apply lookup_delete_ne.
      * intros c entry [[= -> ->]|Hin]%elem_of_cons; [done|by eapply Hname].
    + specialize (IH mapping).
      destruct (sort_commits name commits mapping) as [out m'].
      cbn [fst snd] in *. destruct IH as (Hsub & Hmem & Hleft & Hname).
      split; [by apply sublist_cons|]. split; [|split; [|done]].
      * intros c. rewrite elem_of_cons, Hmem. split.
        -- intros [Hin Hsome]. split; [by right|done].
        -- intros [[->|Hin] Hsome]; [|done].
           rewrite Hc in Hsome. by destruct Hsome.
      * intros c. rewrite Hleft.
        destruct (decide (c ∈ commits)) as [Hin|Hout].
        -- rewrite decide_True by (by apply elem_of_cons; right). done.
        -- destruct (decide (c = commit)) as [->|Hne].
           ++ rewrite decide_True by (by apply elem_of_cons; left). done.
           ++ rewrite decide_False
                by (intros [?|?]%elem_of_cons; [by apply Hne|by apply Hout]).
              done.
Qed.

Lemma sort_heads_error heads (history : History) (mapping : gmap string V) :
  (sort_heads heads history mapping).2
  = if decide (Forall (λ n, is_Some (history !! n)) heads.*1)
    then None else Some KeyError.
Proof.
  revert mapping. induction heads as [|[name rev] heads IH]; intros mapping.
  - cbn [sort_heads snd]. by rewrite decide_True by constructor.
  - cbn [sort_heads].
    destruct (history !! name) as [commits|] eqn:Hname.
    + destruct (sort_commits name commits mapping) as [out1 mapping1].
      specialize (IH mapping1).
      destruct (sort_heads heads history mapping1) as [[out2 mapping2] e].
      cbn [snd] in *. rewrite IH, fmap_cons. cbn [fst].
      destruct (decide (Forall (λ n, is_Some (history !! n)) heads.*1))
        as [Hall|Hnot].
      * rewrite decide_True; [done|]. constructor; [by eexists|done].
      * rewrite decide_False; [done|]. by intros [_ ?]%Forall_cons.
    + cbn [snd]. rewrite decide_False; [done|].
      rewrite fmap_cons. intros [Hsome _]%Forall_cons. cbn [fst] in Hsome.
      rewrite Hname in Hsome. by destruct Hsome.
Qed.

(** X12: with a list for every head, the keys the loop of [git_sort]
    pops are the keys of the mapping that stand in the histories of the
    heads, in the order of these histories, the histories taken in the order
    of the heads; the mapping is left with the keys that stand in no
    history. *)
Theorem git_sort_yields_keys_in_history_order
    (heads : list Head) (history : History) (mapping : gmap string V) :
  (∀ n, n ∈ heads.*1 → is_Some (history !! n)) →
  let out := (sort_heads heads history mapping).1.1 in
  let mapping' := (sort_heads heads history mapping).1.2 in
  out.*1 `sublist_of` all_commits heads history ∧
  (∀ c, c ∈ out.*1 ↔ c ∈ all_commits heads history ∧ is_Some (mapping !! c)) ∧
  (∀ c, mapping' !! c
        = if decide (c ∈ all_commits heads history) then None else mapping !! c).
Proof.
  revert mapping. unfold all_commits.
  induction heads as [|[name rev] heads IH]; intros mapping Hall.
  - cbn. split; [done|]. split.
    + intros c. split; [by intros ?%elem_of_nil|by intros [?%elem_of_nil _]].
    + intros c. by rewrite decide_False by apply not_elem_of_nil.
  - cbn [sort_heads]. rewrite bind_cons. cbn [fst].
    destruct (Hall name (list_elem_of_here _ _)) as [commits Hname].
    rewrite Hname. cbn [default].
    pose proof (sort_commits_keys name commits mapping) as (Hsub1 & Hmem1 & Hleft1 & _).
    destruct (sort_commits name commits mapping) as [out1 mapping1].
    assert (∀ n, n ∈ heads.*1 → is_Some (history !! n)) as Hall'.
    { intros n Hn. apply Hall. rewrite fmap_cons. by apply list_elem_of_further. }
    specialize (IH mapping1 Hall').
    destruct (sort_heads heads history mapping1) as [[out2 mapping2] e].
    cbn [fst snd] in *. destruct IH as (Hsub2 & Hmem2 & Hleft2).
    rewrite fmap_app. split; [by apply sublist_app|]. split.
    + intros c. rewrite !elem_of_app, Hmem1, Hmem2, Hleft1.
      destruct (decide (c ∈ commits)) as [Hin|Hout].
      * split; [|tauto].
        intros [[_ Hsome]|[_ Hsome]]; [tauto|by destruct Hsome].
      * tauto.
    + intros c. rewrite Hleft2, Hleft1.
      destruct (decide (c ∈ heads ≫= λ h, default [] (history !! h.1)))
        as [Hin|Hout].
      * rewrite decide_True by (apply elem_of_app; by right). done.
      * destruct (decide (c ∈ commits)) as [Hin1|Hout1].
        -- rewrite decide_True by (apply elem_of_app; by left). done.
        -- rewrite decide_False
             by (intros [?|?]%elem_of_app; [by apply Hout1|by apply Hout]).
           done.
Qed.

(** X13: the entry yielded for a commit carries the name of the first
    head whose history holds the commit. *)
Theorem git_sort_entry_names_first_head
    (heads : list Head) (history : History) (mapping : gmap string V)
    (c : string) (entry : SortedEntry V) :
  (c, entry) ∈ (sort_heads heads history mapping).1.1 →
  ∃ i rev commits,
    heads !! i = Some (head_name entry, rev) ∧
    history !! head_name entry = Some commits ∧ c ∈ commits ∧
    ∀ j n r l, (j < i)%nat → heads !! j = Some (n, r) →
               history !! n = Some l → c ∉ l.
Proof.
  revert mapping. induction heads as [|[name rev] heads IH]; intros mapping.
  - cbn. by intros ?%elem_of_nil.
  - cbn [sort_heads].
    destruct (history !! name) as [commits|] eqn:Hname;
      [|cbn; by intros ?%elem_of_nil].
    pose proof (sort_commits_keys name commits mapping)
      as (_ & Hmem1 & Hleft1 & Hname1).
    destruct (sort_commits name commits mapping) as [out1 mapping1].
    specialize (IH mapping1).
    pose proof (sort_heads_pops heads history mapping1) as Hpops.
    destruct (sort_heads heads history mapping1) as [[out2 mapping2] e].
    cbn [fst snd] in *.
    intros [Hin|Hin]%elem_of_app.
    + exists 0%nat, rev, commits. rewrite (Hname1 _ _ Hin).
      split; [done|]. split; [done|]. split; [|intros; lia].
      apply (Hmem1 c), list_elem_of_fmap. by exists (c, entry).
    + destruct (IH Hin) as (i & rev' & commits' & Hi & Hhist & Hc & Hfirst).
      exists (S i), rev', commits'. split; [done|]. split; [done|].
      split; [done|].
      intros [|j] n r l Hj Hhead Hl.
      * injection Hhead as <- <-. rewrite Hname in Hl. injection Hl as <-.
        intros Hcin.
        destruct Hpops as (_ & Hval & _).
        specialize (Hval _ _ Hin). rewrite Hleft1 in Hval.
        by rewrite decide_True in Hval.
      * apply (Hfirst j n r l); [lia|done..].
Qed.

End Yields.

(** X11: the loop of [git_sort] ends with [KeyError] exactly when some
    head has no list in the history; with a list for every head it runs to
    the end. *)
Theorem git_sort_KeyError_iff
    {V : Type} (heads : list Head) (history : History) (mapping : gmap string V) :
  ((sort_heads heads history mapping).2 = None ↔
   ∀ n, n ∈ heads.*1 → is_Some (history !! n)) ∧
  ((sort_heads heads history mapping).2 = Some KeyError ↔
   ∃ n, n ∈ heads.*1 ∧ history !! n = None).
Proof.
  rewrite sort_heads_error.
  destruct (decide (Forall (λ n, is_Some (history !! n)) heads.*1))
    as [Hall|Hnot].
  - rewrite Forall_forall in Hall. split; [done|]. split; [done|].
    intros (n & Hn & Hnone). specialize (Hall n Hn).
    rewrite Hnone in Hall. by destruct Hall.
  - split; [split; [done|by rewrite <- Forall_forall]|].
    split; [|done]. intros _.
    apply not_Forall_Exists in Hnot; [|apply _].
    apply Exists_exists in Hnot as (n & Hn & Hnone).
    exists n. split; [done|].
    destruct (history !! n) eqn:E; [|done]. destruct Hnone. by eexists.
Qed.

Lemma git_sort_KeyError_iff_witness :
  (sort_heads Ex.heads_chain (<["linux.git" := [Ex.i1; Ex.i2]]> ∅)
     (<[Ex.i1 := ["first"]]> (∅ : gmap string (list string)))).2
  = Some KeyError.
Proof.
  apply (proj2 (git_sort_KeyError_iff Ex.heads_chain
                  (<["linux.git" := [Ex.i1; Ex.i2]]> ∅)
                  (<[Ex.i1 := ["first"]]> ∅))).
  exists "net". split; [|vm_compute; reflexivity].
  apply list_elem_of_further, list_elem_of_here.
Defined.

Lemma git_sort_yields_keys_in_history_order_witness :
  let mapping : gmap string (list string) :=
    <[Ex.i4 := ["local"]]> (<[Ex.i3 := ["net"]]> (<[Ex.i1 := ["first"]]> ∅)) in
  (sort_heads Ex.heads_chain Ex.history_chain mapping).1.1.*1
    `sublist_of` all_commits Ex.heads_chain Ex.history_chain ∧
  (sort_heads Ex.heads_chain Ex.history_chain mapping).1.2 !! Ex.i4
    = Some ["local"].
Proof.
  intros mapping.
  destruct (git_sort_yields_keys_in_history_order
              Ex.heads_chain Ex.history_chain mapping) as (Hsub & _ & Hleft).
  - intros n Hn.
    repeat (apply elem_of_cons in Hn as [->|Hn]);
      [vm_compute; eauto..|by apply elem_of_nil in Hn].
  - split; [exact Hsub|]. rewrite Hleft. vm_compute. reflexivity.
Defined.

Lemma git_sort_entry_names_first_head_witness :
  ∃ i rev commits,
    Ex.heads_chain !! i = Some ("net", rev) ∧
    Ex.history_chain !! "net" = Some commits ∧ Ex.i3 ∈ commits ∧
    ∀ j n r l, (j < i)%nat → Ex.heads_chain !! j = Some (n, r) →
               Ex.history_chain !! n = Some l → Ex.i3 ∉ l.
Proof.
  apply (git_sort_entry_names_first_head Ex.heads_chain Ex.history_chain
           (<[Ex.i3 := ["net fix"]]> ∅) Ex.i3 (mkSortedEntry "net" ["net fix"])).
  vm_compute. constructor.
Defined.

(** X14: after a rebuild, [git_sort] finds a list for every head: its
    loop does not end with [KeyError]. *)
Theorem git_sort_after_rebuild_has_every_head
    {V : Type} (Popen : list string → list string * Z) (heads : list Head)
    (history : History) (mapping : gmap string V) (w w' : World) :
  heads_key (cache w) ≠ Some heads →
  _get_history Popen heads w = (ok history, w') →
  (sort_heads heads history mapping).2 = None.
Proof.
  intros Hmiss Hrun.
  rewrite (get_history_miss _ _ _ Hmiss) in Hrun.
  destruct (_rebuild_history Popen heads) as [e|rebuilt] eqn:Hbuilt; [done|].
  injection Hrun as -> _.
  unfold _rebuild_history in Hbuilt.
  apply (rebuild_loop_outputs Popen heads []) in Hbuilt as (_ & _ & _ & Hlists).
  rewrite sort_heads_error, decide_True; [done|].
  apply Forall_forall.
  intros n ([n' rev] & -> & Hin)%list_elem_of_fmap.
  apply list_elem_of_lookup in Hin as [i Hi].
  destruct (Hlists i n' rev Hi) as [_ Hl]. cbn [fst]. rewrite Hl. by eexists.
Qed.

Lemma git_sort_after_rebuild_has_every_head_witness :
  (sort_heads Ex.heads_chain Ex.history_chain
     (<[Ex.i1 := ["first"]]> (∅ : gmap string (list string)))).2 = None.
Proof.
  apply (git_sort_after_rebuild_has_every_head Ex.Popen Ex.heads_chain
           Ex.history_chain _ (start empty_cache)
           (_get_history Ex.Popen Ex.heads_chain (start empty_cache)).2).
  - discriminate.
  - vm_compute; reflexivity.
Defined.

(** ** The groups of lines *)

Section Groups.

Variable revparse_single : string → revparse.

Lemma resolves_line_id line :
  resolves revparse_single line ↔ is_Some (line_id revparse_single line).
Proof.
  unfold resolves, line_id. split.
  - intros (word & h & Hw & Hh). rewrite Hw. unfold ok. rewrite Hh. by eexists.
  - destruct (first_word line) as [e|word]; [by intros [? ?]|].
    destruct (revparse_single word) as [h| |] eqn:Hword;
      [|by intros [? ?]..].
    intros _. by exists word, h.
Qed.

(** One turn of the loop for a line of the commit [h0]. *)
Lemma add_line_group (lines : gmap string (list string)) h0 line h :
  default [] (match lines !! h0 with
              | Some group => <[h0 := group ++ [line]]> lines
              | None => <[h0 := [line]]> lines
              end !! h)
  = default [] (lines !! h) ++ (if decide (Some h0 = Some h) then [line] else []).
Proof.
  destruct (decide (h0 = h)) as [->|Hne].
  - rewrite decide_True by done.
    destruct (lines !! h) as [group|] eqn:Hh; by rewrite lookup_insert_eq.
  - rewrite decide_False by (by intros [= ?]). rewrite app_nil_r.
    destruct (lines !! h0); by rewrite lookup_insert_ne.
Qed.

Lemma read_lines_groups_from stdin num (lines0 : gmap string (list string)) w :
  Forall (resolves revparse_single) stdin →
  (∀ h, lines0 !! h ≠ Some []) →
  ∃ lines,
    read_lines revparse_single stdin num lines0 w = (ok lines, w) ∧
    (∀ h, lines !! h ≠ Some []) ∧
    (∀ h, default [] (lines !! h)
          = default [] (lines0 !! h) ++
            filter (λ line, line_id revparse_single line = Some h) stdin).
Proof.
  intros Hall. revert num lines0.
  induction Hall as [|line stdin (word & h0 & Hword & Hh0) _ IH];
    intros num lines0 Hne.
  - exists lines0. split; [done|]. split; [done|].
    intros h. by rewrite filter_nil, app_nil_r.
  - cbn [read_lines]. rewrite Hword. unfold ok. rewrite Hh0.
    destruct (IH (S num) (match lines0 !! h0 with
                          | Some group => <[h0 := group ++ [line]]> lines0
                          | None => <[h0 := [line]]> lines0
                          end)) as (lines & Hrun & Hne' & Hgroups).
    { intros h. destruct (decide (h0 = h)) as [->|Hdiff].
      - destruct (lines0 !! h) as [group|]; rewrite lookup_insert_eq;
          [by destruct group|done].
      - destruct (lines0 !! h0); rewrite lookup_insert_ne by done; apply Hne. }
    exists lines. split; [done|]. split; [done|].
    intros h. rewrite Hgroups, add_line_group, <- app_assoc. f_equal.
    rewrite filter_cons.
    assert (line_id revparse_single line = Some h0) as ->
      by (unfold line_id; rewrite Hword; unfold ok; by rewrite Hh0).
    by destruct (decide (Some h0 = Some h)).
Qed.

Lemma all_lines_insert (lines : gmap string (list string)) h group :
  all_lines (<[h := group]> lines) ≡ₚ group ++ all_lines (delete h lines).
Proof.
  unfold all_lines, values.
  rewrite <- insert_delete_eq.
  rewrite map_to_list_insert by apply lookup_delete_eq.
  by rewrite fmap_cons, bind_cons.
Qed.

Lemma all_lines_delete (lines : gmap string (list string)) h group :
  lines !! h = Some group →
  all_lines lines ≡ₚ group ++ all_lines (delete h lines).
Proof.
  intros Hh. unfold all_lines, values.
  rewrite <- (map_to_list_delete lines h group Hh).
  by rewrite fmap_cons, bind_cons.
Qed.

Lemma read_lines_keeps_lines stdin num (lines0 lines : gmap string (list string))
    w w' :
  read_lines revparse_single stdin num lines0 w = (ok lines, w') →
  all_lines lines ≡ₚ all_lines lines0 ++ stdin.
Proof.
  revert num lines0.
  induction stdin as [|line stdin IH]; intros num lines0.
  - intros [= <- _]. by rewrite app_nil_r.
  - cbn [read_lines].
    destruct (first_word line) as [e|word]; [by intros [=]|].
    destruct (revparse_single word) as [h| |];
      [|by intros [=]|by intros [=]].
    intros Hrun%IH. rewrite Hrun.
    rewrite <- Permutation_middle.
    change (line :: all_lines lines0 ++ stdin)
      with ((line :: all_lines lines0) ++ stdin).
    apply Permutation_app_tail.
    destruct (lines0 !! h) as [group|] eqn:Hh.
    + rewrite all_lines_insert, (all_lines_delete lines0 h group Hh).
      rewrite <- app_assoc. cbn [app].
      by rewrite <- Permutation_middle.
    + rewrite all_lines_insert. by rewrite (delete_id lines0 h Hh).
Qed.

Lemma sort_commits_keeps_lines name commits (mapping : gmap string (list string)) :
  ((sort_commits name commits mapping).1.*2 ≫= value) ++
  all_lines (sort_commits name commits mapping).2 ≡ₚ all_lines mapping.
Proof.
  revert mapping. induction commits as [|commit commits IH]; intros mapping.
  - done.
  - cbn [sort_commits].
    destruct (mapping !! commit) as [v|] eqn:Hc; [|apply IH].
    specialize (IH (delete commit mapping)).
    destruct (sort_commits name commits (delete commit mapping)) as [out m'].
    cbn [fst snd] in *.
    rewrite fmap_cons, bind_cons. cbn [snd value].
    rewrite (all_lines_delete mapping commit v Hc), <- app_assoc.
    by rewrite IH.
Qed.

Lemma sort_heads_keeps_lines heads (history : History)
    (mapping : gmap string (list string)) :
  ((sort_heads heads history mapping).1.1.*2 ≫= value) ++
  all_lines (sort_heads heads history mapping).1.2 ≡ₚ all_lines mapping.
Proof.
  revert mapping. induction heads as [|[name rev] heads IH]; intros mapping.
  - done.
  - cbn [sort_heads].
    destruct (history !! name) as [commits|]; [|done].
    pose proof (sort_commits_keeps_lines name commits mapping) as H1.
    destruct (sort_commits name commits mapping) as [out1 mapping1].
    specialize (IH mapping1).
    destruct (sort_heads heads history mapping1) as [[out2 mapping2] e].
    cbn [fst snd] in *.
    rewrite fmap_app, bind_app, <- app_assoc, IH. done.
Qed.

End Groups.

(** X15: when the first word of every line names a commit, the loop over
    the lines returns, prints nothing and leaves the mapping of every commit
    of the input to the lines of the input that name it, in the order of the
    input; no other key is in the mapping. *)
Theorem read_lines_groups
    (revparse_single : string → revparse) (stdin : list string) (w : World) :
  Forall (resolves revparse_single) stdin →
  ∃ lines,
    read_lines revparse_single stdin 0 ∅ w = (ok lines, w) ∧
    ∀ h group,
      lines !! h = Some group ↔
      group = filter (λ line, line_id revparse_single line = Some h) stdin ∧
      group ≠ [].
Proof.
  intros Hall.
  destruct (read_lines_groups_from revparse_single stdin 0 ∅ w Hall)
    as (lines & Hrun & Hne & Hgroups); [by intros h; rewrite lookup_empty|].
  exists lines. split; [done|].
  intros h group. specialize (Hgroups h). specialize (Hne h).
  rewrite lookup_empty in Hgroups.
  destruct (lines !! h) as [g|]; simpl in Hgroups.
  - split.
    + intros [= <-]. split; [done|]. by intros ->.
    + intros [-> _]. by rewrite Hgroups.
  - split; [done|]. intros [-> Hnonempty]. by rewrite <- Hgroups in Hnonempty.
Qed.

Lemma read_lines_groups_witness :
  ∃ lines,
    read_lines Ex.revparse_single
      [Ex.i2 +:+ " b" +:+ Py.nl; Ex.i1 +:+ " a" +:+ Py.nl;
       Ex.i2 +:+ " c" +:+ Py.nl] 0 ∅ (start empty_cache)
    = (ok lines, start empty_cache) ∧
    lines !! Ex.i2 = Some [Ex.i2 +:+ " b" +:+ Py.nl; Ex.i2 +:+ " c" +:+ Py.nl].
Proof.
  destruct (read_lines_groups Ex.revparse_single
              [Ex.i2 +:+ " b" +:+ Py.nl; Ex.i1 +:+ " a" +:+ Py.nl;
               Ex.i2 +:+ " c" +:+ Py.nl] (start empty_cache))
    as (lines & Hrun & Hgroups).
  - repeat constructor.
    + exists Ex.i2, Ex.i2. split; vm_compute; reflexivity.
    + exists Ex.i1, Ex.i1. split; vm_compute; reflexivity.
    + exists Ex.i2, Ex.i2. split; vm_compute; reflexivity.
  - exists lines. split; [exact Hrun|].
    apply Hgroups. split; [vm_compute; reflexivity|discriminate].
Defined.

(** ** No line is lost *)

Lemma all_lines_nil (lines : gmap string (list string)) :
  (∀ h, lines !! h ≠ Some []) → all_lines lines = [] → lines = ∅.
Proof.
  intros Hne Hnil. apply map_to_list_empty_iff.
  destruct (map_to_list lines) as [|[k group] rest] eqn:E; [done|].
  assert (lines !! k = Some group) as Hk.
  { apply elem_of_map_to_list. rewrite E. apply list_elem_of_here. }
  unfold all_lines, values in Hnil. rewrite E in Hnil.
  rewrite fmap_cons, bind_cons in Hnil. cbn [snd id] in Hnil.
  apply app_eq_nil in Hnil as [-> _]. by destruct (Hne k).
Qed.

(** ** The order of the lines printed *)

Lemma filter_all {A} (P : A → Prop) `{!∀ x, Decision (P x)} (l : list A) :
  (∀ x, x ∈ l → P x) → filter P l = l.
Proof.
  induction l as [|x l IH]; intros Hall; [done|].
  rewrite filter_cons_True by apply Hall, list_elem_of_here.
  f_equal. apply IH. intros y Hy. by apply Hall, list_elem_of_further.
Qed.

Lemma first_occurrences_elem (l : list string) c :
  c ∈ first_occurrences l ↔ c ∈ l.
Proof.
  induction l as [|x l IH]; [done|].
  cbn [first_occurrences]. rewrite !elem_of_cons, list_elem_of_filter, IH.
  destruct (decide (c = x)); tauto.
Qed.

Lemma first_occurrences_app (l1 l2 : list string) :
  first_occurrences (l1 ++ l2)
  = first_occurrences l1 ++ filter (λ c, c ∉ l1) (first_occurrences l2).
Proof.
  induction l1 as [|x l1 IH].
  - cbn [app first_occurrences]. symmetry. apply filter_all.
    intros c _. apply not_elem_of_nil.
  - cbn [app first_occurrences]. rewrite IH, filter_app, list_filter_filter.
    do 2 f_equal. apply list_filter_iff. intros c.
    rewrite elem_of_cons. tauto.
Qed.

Section Sorted.

Context {V : Type}.

(** The keys popped for one head are the keys of the mapping among the
    commits of the head, each where it first occurs. *)
Lemma sort_commits_first_occurrences name commits (mapping : gmap string V) :
  (sort_commits name commits mapping).1.*1
  = filter (λ c, is_Some (mapping !! c)) (first_occurrences commits).
Proof.
  revert mapping. induction commits as [|commit commits IH]; intros mapping.
  - done.
  - cbn [sort_commits first_occurrences].
    destruct (mapping !! commit) as [v|] eqn:Hc.
    + specialize (IH (delete commit mapping)).
      destruct (sort_commits name commits (delete commit mapping)) as [out m'].
      cbn [fst] in *. rewrite fmap_cons, IH. cbn [fst].
      rewrite filter_cons_True by (by rewrite Hc; eexists).
      f_equal. rewrite list_filter_filter. apply list_filter_iff.
      intros c. destruct (decide (c = commit)) as [->|Hne].
      * rewrite lookup_delete_eq. split; [by intros [? ?]|by intros [_ ?]].
      * rewrite lookup_delete_ne by done. tauto.
    + rewrite IH.
      rewrite filter_cons_False by (rewrite Hc; by intros [? ?]).
      rewrite list_filter_filter. apply list_filter_iff.
      intros c. split; [|tauto]. intros Hsome. split; [done|].
      intros ->. rewrite Hc in Hsome. by destruct Hsome.
Qed.

Lemma sort_heads_first_occurrences heads (history : History)
    (mapping : gmap string V) :
  (∀ n, n ∈ heads.*1 → is_Some (history !! n)) →
  (sort_heads heads history mapping).1.1.*1
  = filter (λ c, is_Some (mapping !! c))
      (first_occurrences (all_commits heads history)).
Proof.
  revert mapping. unfold all_commits.
  induction heads as [|[name rev] heads IH]; intros mapping Hall; [done|].
  cbn [sort_heads]. rewrite bind_cons. cbn [fst].
  destruct (Hall name (list_elem_of_here _ _)) as [commits Hname].
  rewrite Hname. cbn [default].
  pose proof (sort_commits_first_occurrences name commits mapping) as Hkeys.
  pose proof (sort_commits_keys name commits mapping) as (_ & _ & Hleft & _).
  destruct (sort_commits name commits mapping) as [out1 mapping1].
  assert (∀ n, n ∈ heads.*1 → is_Some (history !! n)) as Hall'.
  { intros n Hn. apply Hall. rewrite fmap_cons. by apply list_elem_of_further. }
  specialize (IH mapping1 Hall').
  destruct (sort_heads heads history mapping1) as [[out2 mapping2] e].
  cbn [fst snd] in *.
  rewrite fmap_app, Hkeys, IH, first_occurrences_app, filter_app.
  f_equal. rewrite list_filter_filter. apply list_filter_iff.
  intros c. rewrite Hleft. destruct (decide (c ∈ commits)) as [Hin|Hout].
  - split; [by intros [? ?]|tauto].
  - tauto.
Qed.

(** What is yielded for the keys popped is what the mapping had for
    them. *)
Lemma yielded_values (out : list (string * SortedEntry (list V)))
    (mapping : gmap string (list V)) :
  (∀ c entry, (c, entry) ∈ out → mapping !! c = Some (value entry)) →
  out.*2 ≫= value = out.*1 ≫= λ c, default [] (mapping !! c).
Proof.
  induction out as [|[c entry] out IH]; intros Hval; [done|].
  rewrite !fmap_cons, !bind_cons. cbn [fst snd].
  rewrite (Hval c entry) by apply list_elem_of_here. cbn [default].
  f_equal. apply IH. intros c' entry' Hin.
  by apply Hval, list_elem_of_further.
Qed.

Lemma bind_present (l : list string) (mapping : gmap string (list V)) :
  filter (λ c, is_Some (mapping !! c)) l ≫= (λ c, default [] (mapping !! c))
  = l ≫= λ c, default [] (mapping !! c).
Proof.
  induction l as [|c l IH]; [done|].
  rewrite filter_cons, bind_cons.
  destruct (decide (is_Some (mapping !! c))) as [Hsome|Hnone].
  - by rewrite bind_cons, IH.
  - rewrite IH. destruct (mapping !! c); [|done]. destruct Hnone. by eexists.
Qed.

End Sorted.

(** The lines of a mapping, by its keys. *)
Lemma all_lines_keys (lines : gmap string (list string)) :
  all_lines lines = (map_to_list lines).*1 ≫= λ c, default [] (lines !! c).
Proof.
  unfold all_lines, values.
  assert (∀ c group, (c, group) ∈ map_to_list lines → lines !! c = Some group)
    as Hin by (intros c group; apply elem_of_map_to_list).
  induction (map_to_list lines) as [|[c group] kvs IH]; [done|].
  rewrite !fmap_cons, !bind_cons. cbn [fst snd id].
  rewrite (Hin c group) by apply list_elem_of_here. cbn [default].
  f_equal. apply IH. intros c' group' Hin'.
  by apply Hin, list_elem_of_further.
Qed.

(** X16: when the first word of every line names a commit and the heads
    and their history resolve, with a list for every head, the script
    prints every line of its input once on standard output. First come the
    sorted lines: for each commit of the histories of the heads, taken
    where it first occurs in these histories, the lines of the input that
    stand for it, in the order of the input. Then come the lines left over,
    which are the lines of the commits of the input that are in no history,
    commit after commit, and for each commit in the order of the input. The
    script prints the heading of the report on standard error and ends with
    status 1 exactly when a line is left over; otherwise it prints nothing
    on standard error and ends with status 0. *)
Theorem sort_stdin_prints_every_line
    (revparse_single : string → revparse) (git_config : list string * Z)
    (Popen : list string → list string * Z)
    (pformat : option (list Head) → string)
    (stdin : list string) (heads : list Head) (history : History)
    (w w2 : World) :
  Forall (resolves revparse_single) stdin →
  _get_heads revparse_single git_config = ok heads →
  _get_history Popen heads w = (ok history, w2) →
  (∀ n, n ∈ heads.*1 → is_Some (history !! n)) →
  ∃ unsorted : list string,
    NoDup unsorted ∧
    (∀ c, c ∈ unsorted ↔
          (c ∉ all_commits heads history) ∧
          (∃ line, line ∈ stdin ∧ line_id revparse_single line = Some c)) ∧
    let sorted :=
      first_occurrences (all_commits heads history)
        ≫= lines_of revparse_single stdin in
    let left := unsorted ≫= lines_of revparse_single stdin in
    sorted ++ left ≡ₚ stdin ∧
    main revparse_single git_config Popen pformat false stdin w =
    if bool_decide (left = []) then
      (ok (),
       mkWorld (cache w2)
         (stdout w +:+ Py.join EmptyString sorted +:+ EmptyString)
         (stderr w) (rebuilds w2))
    else
      (raise (SystemExit 1),
       mkWorld (cache w2)
         ((stdout w +:+ Py.join EmptyString sorted +:+ EmptyString) +:+
          Py.join EmptyString left +:+ EmptyString)
         (stderr w +:+ not_upstream +:+ Py.nl) (rebuilds w2)).
Proof.
  intros Hall Hheads Hhist Hnames.
  destruct (read_lines_groups_from revparse_single stdin 0 ∅ w Hall)
    as (lines & Hread & Hne & Hgroups); [by intros h; rewrite lookup_empty|].
  assert (∀ c, default [] (lines !! c) = lines_of revparse_single stdin c)
    as Hgroup by (intros c; by rewrite Hgroups, lookup_empty).
  assert (∀ c, is_Some (lines !! c) ↔
               ∃ line, line ∈ stdin ∧ line_id revparse_single line = Some c)
    as Hkey.
  { intros c. specialize (Hgroup c). specialize (Hne c). unfold lines_of in Hgroup.
    split.
    - intros [group Hc]. rewrite Hc in Hgroup, Hne. cbn [default] in Hgroup.
      destruct group as [|line group]; [done|].
      exists line.
      assert (line ∈ filter (λ line, line_id revparse_single line = Some c) stdin)
        as [? ?]%list_elem_of_filter by (rewrite <- Hgroup; apply list_elem_of_here).
      done.
    - intros (line & Hin & Hline).
      assert (line ∈ default [] (lines !! c)) as Hgr
        by (rewrite Hgroup; by apply list_elem_of_filter).
      destruct (lines !! c); [by eexists|by apply elem_of_nil in Hgr]. }
  pose proof (read_lines_keeps_lines _ _ _ _ _ _ _ Hread) as Hperm.
  change (all_lines ∅) with (@nil string) in Hperm. cbn [app] in Hperm.
  destruct (get_history_streams Popen heads w) as [Hout Herr].
  rewrite Hhist in Hout, Herr. cbn [snd] in Hout, Herr.
  pose proof (sort_heads_keeps_lines heads history lines) as Hkeep.
  pose proof (sort_heads_error heads history lines) as Herror.
  rewrite decide_True in Herror by (by apply Forall_forall).
  pose proof (sort_heads_first_occurrences heads history lines Hnames) as Hkeys.
  destruct (sort_heads_pops heads history lines) as (_ & Hval & Hleft).
  destruct (sort_heads heads history lines) as [[out lines'] e] eqn:Hsort.
  cbn [fst snd] in *. subst e.
  assert (∀ c, lines' !! c
               = if decide (c ∈ all_commits heads history) then None
                 else lines !! c) as Hleft'.
  { intros c. rewrite Hleft, Hkeys.
    destruct (decide (c ∈ all_commits heads history)) as [Hin|Hnotin].
    - destruct (lines !! c) eqn:Hc; [|by destruct (decide _)].
      rewrite decide_True; [done|].
      apply list_elem_of_filter. split; [by rewrite Hc; eexists|].
      by apply first_occurrences_elem.
    - rewrite decide_False; [done|].
      intros [_ Hin]%list_elem_of_filter.
      by apply (proj1 (first_occurrences_elem _ _)) in Hin. }
  assert (out.*2 ≫= value
          = first_occurrences (all_commits heads history)
              ≫= lines_of revparse_single stdin) as Hsorted.
  { rewrite (yielded_values out lines Hval), Hkeys, bind_present.
    by apply list_bind_ext. }
  assert (all_lines lines'
          = (map_to_list lines').*1 ≫= lines_of revparse_single stdin)
    as Hunsorted.
  { rewrite all_lines_keys.
    assert (∀ c, c ∈ (map_to_list lines').*1 → is_Some (lines' !! c)) as Hin.
    { intros c ([c' group] & -> & Hin)%list_elem_of_fmap.
      apply elem_of_map_to_list in Hin. by eexists. }
    induction ((map_to_list lines').*1) as [|c l IH]; [done|].
    rewrite !bind_cons. f_equal.
    - destruct (Hin c (list_elem_of_here _ _)) as [group Hc].
      rewrite <- Hgroup. rewrite Hleft' in Hc |- *.
      by destruct (decide _).
    - apply IH. intros c' Hc'. by apply Hin, list_elem_of_further. }
  exists (map_to_list lines').*1.
  split; [apply NoDup_fst_map_to_list|]. split.
  { intros c. rewrite <- Hkey. split.
    - intros ([c' group] & -> & Hin)%list_elem_of_fmap.
      apply elem_of_map_to_list in Hin. cbn [fst].
      rewrite Hleft' in Hin. destruct (decide _); [done|]. split; [done|by eexists].
    - intros [Hnotin [group Hc]]. apply list_elem_of_fmap.
      exists (c, group). split; [done|]. apply elem_of_map_to_list.
      rewrite Hleft'. by rewrite decide_False. }
  cbv zeta. rewrite <- Hsorted, <- Hunsorted.
  split; [by rewrite Hkeep|].
  assert (git_sort revparse_single git_config Popen lines w
          = (ok (out.*2, lines'), w2)) as Hgit.
  { unfold git_sort, bind, lift, ret, ok in *.
    by rewrite Hheads, Hhist, Hsort. }
  rewrite (main_report _ _ _ _ _ _ _ _ _ _ _ Hread Hgit).
  rewrite Hout, Herr.
  assert (∀ h, lines' !! h ≠ Some []) as Hne'.
  { intros h. rewrite Hleft'. by destruct (decide _). }
  case_bool_decide as Hsize; case_bool_decide as Hnil; try done.
  - destruct Hsize. apply all_lines_nil in Hnil as ->; [|done].
    apply map_size_empty.
  - destruct Hnil.
    assert (lines' = ∅) as ->; [|done].
    apply map_size_empty_iff.
    destruct (decide (size lines' = 0%nat)); [done|by destruct Hsize].
Qed.

Lemma sort_stdin_prints_every_line_witness :
  main Ex.revparse_single Ex.config_chain Ex.Popen Ex.pformat false
    [Ex.i4 +:+ " local fix" +:+ Py.nl;
     Ex.i3 +:+ " net fix" +:+ Py.nl;
     Ex.i1 +:+ " first commit" +:+ Py.nl] (start empty_cache)
  = (raise (SystemExit 1),
     mkWorld (mkCache (Some Ex.heads_chain) (Some Ex.history_chain))
       (Ex.i1 +:+ " first commit" +:+ Py.nl +:+
        Ex.i3 +:+ " net fix" +:+ Py.nl +:+
        Ex.i4 +:+ " local fix" +:+ Py.nl)
       (not_upstream +:+ Py.nl) 1).
Proof.
  destruct (sort_stdin_prints_every_line Ex.revparse_single Ex.config_chain
              Ex.Popen Ex.pformat
              [Ex.i4 +:+ " local fix" +:+ Py.nl;
               Ex.i3 +:+ " net fix" +:+ Py.nl;
               Ex.i1 +:+ " first commit" +:+ Py.nl]
              Ex.heads_chain Ex.history_chain (start empty_cache)
              (mkWorld (mkCache (Some Ex.heads_chain) (Some Ex.history_chain))
                 EmptyString EmptyString 1))
    as (unsorted & Hnd & Hmem & _ & Hmain).
  - repeat constructor.
    + exists Ex.i4, Ex.i4. split; vm_compute; reflexivity.
    + exists Ex.i3, Ex.i3. split; vm_compute; reflexivity.
    + exists Ex.i1, Ex.i1. split; vm_compute; reflexivity.
  - vm_compute; reflexivity.
  - vm_compute; reflexivity.
  - intros n Hn.
    repeat (apply elem_of_cons in Hn as [->|Hn]);
      [vm_compute; eauto..|by apply elem_of_nil in Hn].
  - assert (unsorted = [Ex.i4]) as Hunsorted.
    { clear Hmain.
      assert (Ex.i4 ∈ unsorted) as Hi4.
      { apply Hmem. split.
        - apply (bool_decide_unpack _). vm_compute. reflexivity.
        - eexists. split; [apply list_elem_of_here|vm_compute; reflexivity]. }
      assert (∀ c, c ∈ unsorted → c = Ex.i4) as Hall.
      { intros c [Hnot (line & Hin & Hid)]%Hmem.
        apply elem_of_cons in Hin as [->|Hin].
        { vm_compute in Hid. injection Hid as <-. reflexivity. }
        apply elem_of_cons in Hin as [->|Hin].
        { vm_compute in Hid. injection Hid as <-. destruct Hnot.
          apply (bool_decide_unpack _). vm_compute. reflexivity. }
        apply list_elem_of_singleton in Hin as ->.
        vm_compute in Hid. injection Hid as <-. destruct Hnot.
        apply (bool_decide_unpack _). vm_compute. reflexivity. }
      clear Hmem.
      destruct unsorted as [|x [|y rest]].
      - exfalso. exact (proj1 (elem_of_nil _) Hi4).
      - f_equal. apply Hall, list_elem_of_here.
      - exfalso. apply NoDup_cons in Hnd as [Hx _]. apply Hx.
        rewrite (Hall x (list_elem_of_here _ _)).
        rewrite (Hall y (list_elem_of_further _ _ _ (list_elem_of_here _ _))).
        apply list_elem_of_here. }
    rewrite Hunsorted in Hmain. rewrite Hmain. vm_compute. reflexivity.
Defined.

(** ** What [--dump-heads] announces *)

(** X17: when the heads resolve, [--dump-heads] prints the cached heads,
    the current heads and one line of announcement, and exits with status
    0; it announces "Will not rebuild history" exactly when a resolution of
    the history for these heads in the same state calls no rebuild. *)
Theorem dump_heads_announces_rebuild
    (revparse_single : string → revparse) (git_config : list string * Z)
    (Popen : list string → list string * Z)
    (pformat : option (list Head) → string)
    (stdin : list string) (heads : list Head) (w : World) :
  _get_heads revparse_single git_config = ok heads →
  ∃ action : string,
    main revparse_single git_config Popen pformat true stdin w
    = (raise (SystemExit 0),
       mkWorld (cache w)
         (((((stdout w +:+ "Cached heads:" +:+ Py.nl) +:+
             pformat (heads_key (cache w)) +:+ Py.nl) +:+
            "Current heads:" +:+ Py.nl) +:+
           pformat (Some heads) +:+ Py.nl) +:+
          (action +:+ " rebuild history") +:+ Py.nl)
         (stderr w) (rebuilds w)) ∧
    (action = "Will not" ∨ action = "Will") ∧
    (action = "Will not" ↔
     rebuilds (_get_history Popen heads w).2 = rebuilds w) ∧
    (action = "Will" ↔
     rebuilds (_get_history Popen heads w).2 = S (rebuilds w)).
Proof.
  intros Hheads.
  assert (main revparse_single git_config Popen pformat true stdin w
          = (raise (SystemExit 0),
             mkWorld (cache w)
               (((((stdout w +:+ "Cached heads:" +:+ Py.nl) +:+
                   pformat (heads_key (cache w)) +:+ Py.nl) +:+
                  "Current heads:" +:+ Py.nl) +:+
                 pformat (Some heads) +:+ Py.nl) +:+
                ((if bool_decide (heads_key (cache w) = Some heads)
                  then "Will not" else "Will") +:+ " rebuild history") +:+
                Py.nl)
               (stderr w) (rebuilds w))) as Hrun.
  { destruct w as [[hk histk] out err n].
    unfold main, dump_heads, cached_heads, except_KeyError, bind, print, lift,
      cache_get_heads, sys_exit, throw, ret, ok, raise in *.
    cbn [cache heads_key history_key stdout stderr rebuilds].
    rewrite Hheads. by destruct hk. }
  rewrite Hrun.
  destruct (decide (heads_key (cache w) = Some heads)) as [Hhit|Hmiss].
  - exists "Will not". rewrite bool_decide_eq_true_2 by done.
    rewrite get_history_hit by done. cbn [snd].
    split; [done|]. split; [by left|]. split; [done|].
    split; [done|]. intros Hs. lia.
  - exists "Will". rewrite bool_decide_eq_false_2 by done.
    assert (rebuilds (_get_history Popen heads w).2 = S (rebuilds w)) as Hn.
    { rewrite get_history_miss by done.
      by destruct (_rebuild_history Popen heads). }
    split; [done|]. split; [by right|]. split; [|done].
    split; [done|]. intros Hs. rewrite Hn in Hs. lia.
Qed.

Lemma dump_heads_announces_rebuild_witness :
  ∃ action : string,
    main Ex.revparse_single Ex.config_chain Ex.Popen Ex.pformat true []
      (start (mkCache (Some Ex.heads_chain) (Some Ex.history_chain)))
    = (raise (SystemExit 0),
       mkWorld (mkCache (Some Ex.heads_chain) (Some Ex.history_chain))
         (((((EmptyString +:+ "Cached heads:" +:+ Py.nl) +:+
             Ex.pformat (Some Ex.heads_chain) +:+ Py.nl) +:+
            "Current heads:" +:+ Py.nl) +:+
           Ex.pformat (Some Ex.heads_chain) +:+ Py.nl) +:+
          (action +:+ " rebuild history") +:+ Py.nl)
         EmptyString 0) ∧
    (action = "Will not" ∨ action = "Will").
Proof.
  destruct (dump_heads_announces_rebuild Ex.revparse_single Ex.config_chain
              Ex.Popen Ex.pformat [] Ex.heads_chain
              (start (mkCache (Some Ex.heads_chain) (Some Ex.history_chain))))
    as (action & Hrun & Hcases & _); [vm_compute; reflexivity|].
  exists action. split; [exact Hrun|exact Hcases].
Defined.

(** ** Edges of the cache and of the configuration *)

(** X18: a cache that holds the heads asked for but no history is not
    repaired: [_get_history] raises [KeyError], calls no rebuild and leaves
    the cache as it is, so that the next resolution of the same heads fails
    in the same way. *)
Theorem get_history_heads_without_history
    (Popen : list string → list string * Z) (heads : list Head) (w : World) :
  heads_key (cache w) = Some heads →
  history_key (cache w) = None →
  _get_history Popen heads w = (raise KeyError, w) ∧
  _get_history Popen heads (_get_history Popen heads w).2 = (raise KeyError, w).
Proof.
  intros Hheads Hhist.
  assert (_get_history Popen heads w = (raise KeyError, w)) as Hrun.
  { destruct w as [[hk histk] out err n]. cbn in Hheads, Hhist. subst.
    unfold _get_history, cached_heads, except_KeyError, bind,
      cache_get_heads, cache_get_history, ret, ok, raise.
    cbn [cache heads_key history_key].
    by rewrite bool_decide_eq_false_2 by (intros Hx; by apply Hx). }
  by rewrite Hrun.
Qed.

Lemma get_history_heads_without_history_witness :
  _get_history Ex.Popen Ex.heads_chain
    (start (mkCache (Some Ex.heads_chain) None))
  = (raise KeyError, start (mkCache (Some Ex.heads_chain) None)).
Proof.
  apply (get_history_heads_without_history Ex.Popen Ex.heads_chain
           (start (mkCache (Some Ex.heads_chain) None))); reflexivity.
Defined.

Lemma span_word_no_space s :
  no_space s = true → Py.span_word s = (s, EmptyString).
Proof.
  induction s as [|c s IH]; simpl; [done|].
  intros [Hc Hs]%andb_prop. apply negb_true_iff in Hc.
  by rewrite Hc, IH.
Qed.

Lemma split_char_no_dot s :
  no_dot s = true → Py.split_char "."%char s = [s].
Proof.
  induction s as [|c s IH]; simpl; [done|].
  intros [Hc Hs]%andb_prop. apply negb_true_iff in Hc.
  by rewrite IH, Hc.
Qed.

Lemma blank_word_end s : blank s = true → word_end s = true.
Proof. destruct s as [|c s]; simpl; [done|]. by intros [? _]%andb_prop. Qed.

(** X19: the lines of [git config] that [_get_heads] cannot read. A line
    with a key and no url after it, as for a remote whose url is empty,
    raises [ValueError]; a line whose key has no dot raises [IndexError]. In
    both cases [_get_heads] ends with this exception. *)
Theorem add_remote_malformed
    (revparse_single : string → revparse)
    (remotes : gmap string string) (key rest url : string)
    (config : list string) :
  starts_word key = true → no_space key = true →
  (blank rest = true →
     add_remote remotes (key +:+ rest) = raise ValueError ∧
     _get_heads revparse_single ((key +:+ rest) :: config, 0%Z)
     = raise ValueError) ∧
  (no_dot key = true → starts_word url = true →
     add_remote remotes (key +:+ " " +:+ url) = raise IndexError ∧
     _get_heads revparse_single ((key +:+ " " +:+ url) :: config, 0%Z)
     = raise IndexError).
Proof.
  intros Hstart Hkey.
  assert (∀ r, starts_word (key +:+ r) = true) as Hstart'.
  { intros r. by destruct key. }
  assert (∀ r, word_end r = true →
            ∃ c s, key +:+ r = String c s ∧
                   Py.span_word (String c s) = (key, r)) as Hspan.
  { intros r Hr. destruct key as [|c key]; [done|].
    exists c, (key +:+ r). split; [done|].
    by apply (span_word_app (String c key) r). }
  split.
  - intros Hrest.
    assert (∀ m, add_remote m (key +:+ rest) = raise ValueError) as Hadd.
    { intros m. unfold add_remote, Py.split_ws1.
      rewrite lstrip_id by done.
      destruct (Hspan rest (blank_word_end _ Hrest)) as (c & s & -> & ->).
      by rewrite lstrip_blank. }
    split; [done|]. unfold _get_heads, check_output, ok. cbn [fst snd].
    rewrite bool_decide_eq_false_2 by (intros Hx; by apply Hx).
    cbn [res_bind read_remotes]. by rewrite Hadd.
  - intros Hdot Hurl.
    assert (∀ m, add_remote m (key +:+ " " +:+ url) = raise IndexError) as Hadd.
    { intros m. unfold add_remote, Py.split_ws1.
      rewrite lstrip_id by done.
      destruct (Hspan (" " +:+ url) eq_refl) as (c & s & -> & ->).
      change (" " +:+ url) with (String " " url). cbn [Py.lstrip].
      change (Py.isspace " ") with true. cbn iota.
      rewrite lstrip_id by done.
      destruct url as [|c' url]; [done|].
      by rewrite split_char_no_dot. }
    split; [done|]. unfold _get_heads, check_output, ok. cbn [fst snd].
    rewrite bool_decide_eq_false_2 by (intros Hx; by apply Hx).
    cbn [res_bind read_remotes]. by rewrite Hadd.
Qed.

Lemma add_remote_malformed_witness :
  _get_heads Ex.revparse_single (["remote.origin.url "], 0%Z)
  = raise ValueError ∧
  _get_heads Ex.revparse_single (["origin git://example.org/linux.git"], 0%Z)
  = raise IndexError.
Proof.
  split.
  - apply (proj1 (add_remote_malformed Ex.revparse_single ∅
                    "remote.origin.url" " " EmptyString []
                    eq_refl eq_refl)).
    reflexivity.
  - apply (proj2 (add_remote_malformed Ex.revparse_single ∅
                    "origin" EmptyString "git://example.org/linux.git" []
                    eq_refl eq_refl)); reflexivity.
Defined.

(** ** The status of the script *)

Section ExitStatus.

Variable revparse_single : string → revparse.
Variable git_config : list string * Z.
Variable Popen : list string → list string * Z.
Variable pformat : option (list Head) → string.

Lemma read_remotes_no_exit config remotes e :
  read_remotes config remotes = raise e → is_exit e = false.
Proof.
  revert remotes. induction config as [|line config IH]; intros remotes; [done|].
  cbn [read_remotes]. unfold add_remote, index.
  destruct (Py.split_ws1 line) as [|name [|url [|]]];
    try (by intros [= <-]).
  destruct (Py.split_char "."%char name !! 1%nat);
    cbn [res_bind]; [apply IH|by intros [= <-]].
Qed.

Lemma match_urls_no_exit remotes name urls acc e :
  match_urls revparse_single remotes name urls acc = raise e →
  is_exit e = false.
Proof.
  revert acc. induction urls as [|url urls IH]; intros acc; [done|].
  cbn [match_urls].
  destruct (remotes !! url) as [remote|]; [|apply IH].
  destruct (revparse_single (remote +:+ "/master"));
    [apply IH|by intros [= <-]..].
Qed.

Lemma match_heads_no_exit remotes catalog acc e :
  match_heads revparse_single remotes catalog acc = raise e →
  is_exit e = false.
Proof.
  revert acc.
  induction catalog as [|[name urls] catalog IH]; intros acc; [done|].
  cbn [match_heads].
  destruct (match_urls revparse_single remotes name urls acc)
    as [e'|heads] eqn:Hurls; cbn [res_bind]; [|apply IH].
  intros [= <-]. by eapply match_urls_no_exit.
Qed.

Lemma get_heads_no_exit e :
  _get_heads revparse_single git_config = raise e → is_exit e = false.
Proof.
  unfold _get_heads, check_output, ok, raise.
  case_bool_decide; cbn [res_bind]; [by intros [= <-]|].
  destruct (read_remotes git_config.1 ∅) as [e'|remotes] eqn:Hr; cbn [res_bind].
  { intros [= <-]. by eapply read_remotes_no_exit. }
  destruct (match_heads revparse_single remotes head_names [])
    as [e'|heads] eqn:Hm; cbn [res_bind].
  { intros [= <-]. by eapply match_heads_no_exit. }
  unfold fallback.
  destruct (bool_decide (heads = []) || first_name_differs heads); [|done].
  destruct (revparse_single "HEAD"); [done|by intros [= <-]..].
Qed.

Lemma rebuild_loop_no_exit heads processed (history : History) e :
  rebuild_loop Popen heads processed history = raise e → is_exit e = false.
Proof.
  revert processed history.
  induction heads as [|[name rev] heads IH]; intros processed history; [done|].
  cbn [rebuild_loop]. destruct (Popen _) as [out returncode].
  case_bool_decide; [by intros [= <-]|].
  case_bool_decide; [by intros [= <-]|apply IH].
Qed.

Lemma get_history_no_exit heads w e :
  (_get_history Popen heads w).1 = raise e → is_exit e = false.
Proof.
  destruct w as [[hk histk] out err n].
  unfold _get_history, cached_heads, except_KeyError, bind, rebuild,
    cache_get_heads, cache_get_history, cache_set_heads, cache_set_history,
    set_cache, ret, ok, raise, _rebuild_history.
  cbn [cache heads_key history_key stdout stderr rebuilds].
  destruct hk as [c_heads|]; [case_bool_decide|rewrite bool_decide_eq_true_2 by done].
  all: try destruct (rebuild_loop Popen heads [] ∅) as [e'|history] eqn:Hb.
  all: try destruct histk as [cached|].
  all: cbn [fst snd]; try done.
  all: try (intros [= <-]; by eapply rebuild_loop_no_exit).
  all: by intros [= <-].
Qed.

Lemma git_sort_no_exit {V} (mapping : gmap string V) w e :
  (git_sort revparse_single git_config Popen mapping w).1 = raise e →
  is_exit e = false.
Proof.
  unfold git_sort, bind, lift, ret, throw.
  destruct (_get_heads revparse_single git_config) as [e'|heads] eqn:Hh.
  { intros [= <-]. by eapply get_heads_no_exit. }
  destruct (_get_history Popen heads w) as [[e'|history] w'] eqn:Hhist.
  { intros [= <-]. apply (get_history_no_exit heads w). by rewrite Hhist. }
  pose proof (sort_heads_error heads history mapping) as Herr.
  destruct (sort_heads heads history mapping) as [[out m'] [e'|]];
    cbn [fst snd] in *; [|done].
  intros [= <-]. by destruct (decide _); simplify_eq.
Qed.

Lemma read_lines_exit stdin num lines w e :
  (read_lines revparse_single stdin num lines w).1 = raise e →
  e = IndexError ∨ e = SystemExit 1.
Proof.
  revert num lines. induction stdin as [|line stdin IH]; intros num lines; [done|].
  cbn [read_lines].
  unfold first_word, index.
  destruct (Py.split_ws1 (Py.strip line) !! 0%nat) as [word|].
  - unfold ok.
    destruct (revparse_single word); [apply IH|intros [= <-]; by right..].
  - intros [= <-]. by left.
Qed.

(** X20: from line 164 on, that is with the arguments parsed and the
    repository opened, the script ends with status 0 or 1. [sys.exit(0)]
    ends it only with [--dump-heads], [sys.exit(1)] only without; no
    function of the script raises another [SystemExit]. Without
    [--dump-heads] the status is 0 exactly when the script runs to its
    end. *)
Theorem main_exit_status (dump : bool) (stdin : list string) (w : World) :
  let r := main revparse_single git_config Popen pformat dump stdin w in
  (exit_status r.1 = 0%Z ∨ exit_status r.1 = 1%Z) ∧
  (∀ code, r.1 = raise (SystemExit code) →
     (dump = true ∧ code = 0%Z) ∨ (dump = false ∧ code = 1%Z)) ∧
  (dump = false → (exit_status r.1 = 0%Z ↔ r.1 = ok ())).
Proof.
  intros r.
  assert (∀ code, r.1 = raise (SystemExit code) →
            (dump = true ∧ code = 0%Z) ∨ (dump = false ∧ code = 1%Z)) as Hcode.
  { intros code. subst r. destruct dump; unfold main.
    - destruct w as [[hk histk] out err n].
      unfold dump_heads, cached_heads, except_KeyError, bind, print, lift,
        cache_get_heads, sys_exit, throw, ret, ok, raise.
      cbn [cache heads_key history_key stdout stderr rebuilds].
      destruct hk as [c_heads|];
        destruct (_get_heads revparse_single git_config) as [e|heads] eqn:He;
        cbn [fst].
      + intros [= ->]. by apply get_heads_no_exit in He.
      + intros [= <-]. by left.
      + intros [= ->]. by apply get_heads_no_exit in He.
      + intros [= <-]. by left.
    - unfold sort_stdin, bind.
      destruct (read_lines revparse_single stdin 0 ∅ w) as [[e|lines] w1]
        eqn:Hread.
      { intros [= ->].
        destruct (read_lines_exit stdin 0 ∅ w (SystemExit code))
          as [?|[= ->]]; [by rewrite Hread|done|by right]. }
      destruct (git_sort revparse_single git_config Popen lines w1)
        as [[e|[entries lines']] w2] eqn:Hsort.
      { intros [= ->].
        pose proof (git_sort_no_exit lines w1 (SystemExit code)) as Hno.
        rewrite Hsort in Hno. by specialize (Hno eq_refl). }
      unfold print, print_stderr, sys_exit, throw, ret.
      case_bool_decide; cbn [fst]; [|done].
      intros [= <-]. by right. }
  split; [|split; [done|]].
  - destruct r.1 as [[| | | | |code]|[]] eqn:Hr; cbn [exit_status]; auto.
    destruct (Hcode code eq_refl) as [[_ ->]|[_ ->]]; auto.
  - intros ->.
    destruct r.1 as [[| | | | |code]|[]] eqn:Hr; cbn [exit_status];
      try (split; [done|by intros [=]]).
    destruct (Hcode code eq_refl) as [[? _]|[_ ->]]; [done|].
    split; [done|by intros [=]].
Qed.

End ExitStatus.

(** ** A failing [git config] *)

(** X21: when [git config] exits with a status other than 0, as it does in
    a repository without remotes, [_get_heads] raises [CalledProcessError]
    and the script ends with it, with status 1. Without [--dump-heads] and
    with lines whose first words name commits, this is after the lines are
    read: nothing is printed and the cache is untouched. With
    [--dump-heads] it is after the cached heads and the heading of the
    current ones are printed: the cache is untouched and no history is
    built. *)
Theorem git_config_failure_ends_script
    (revparse_single : string → revparse) (lines : list string) (status : Z)
    (Popen : list string → list string * Z)
    (pformat : option (list Head) → string)
    (stdin : list string) (w : World) :
  status ≠ 0%Z →
  Forall (resolves revparse_single) stdin →
  _get_heads revparse_single (lines, status)
  = raise (CalledProcessError status) ∧
  exit_status (@raise unit (CalledProcessError status)) = 1%Z ∧
  main revparse_single (lines, status) Popen pformat false stdin w
  = (raise (CalledProcessError status), w) ∧
  main revparse_single (lines, status) Popen pformat true stdin w
  = (raise (CalledProcessError status),
     mkWorld (cache w)
       (((stdout w +:+ "Cached heads:" +:+ Py.nl) +:+
         pformat (heads_key (cache w)) +:+ Py.nl) +:+
        "Current heads:" +:+ Py.nl)
       (stderr w) (rebuilds w)).
Proof.
  intros Hstatus Hall.
  assert (_get_heads revparse_single (lines, status)
          = raise (CalledProcessError status)) as Hheads.
  { unfold _get_heads, check_output. cbn [fst snd].
    by rewrite bool_decide_eq_true_2. }
  split; [exact Hheads|]. split; [reflexivity|]. split.
  - destruct (read_lines_groups_from revparse_single stdin 0 ∅ w Hall)
      as (groups & Hread & _ & _); [by intros h; rewrite lookup_empty|].
    unfold main, sort_stdin, git_sort, bind, lift, ok in *.
    by rewrite Hread, Hheads.
  - destruct w as [[hk histk] out err n].
    unfold main, dump_heads, cached_heads, except_KeyError, bind, print,
      lift, cache_get_heads, ret, ok.
    cbn [cache heads_key history_key stdout stderr rebuilds].
    rewrite Hheads. by destruct hk.
Qed.

Lemma git_config_failure_ends_script_witness :
  _get_heads Ex.revparse_single Ex.config_no_remote
  = raise (CalledProcessError 1) ∧
  main Ex.revparse_single Ex.config_no_remote Ex.Popen Ex.pformat false
    [Ex.i1 +:+ " first commit" +:+ Py.nl] (start empty_cache)
  = (raise (CalledProcessError 1), start empty_cache).
Proof.
  destruct (git_config_failure_ends_script Ex.revparse_single [] 1 Ex.Popen
              Ex.pformat [Ex.i1 +:+ " first commit" +:+ Py.nl]
              (start empty_cache))
    as (Hheads & _ & Hmain & _).
  - discriminate.
  - repeat constructor.
    exists Ex.i1, Ex.i1. split; vm_compute; reflexivity.
  - split; [exact Hheads|exact Hmain].
Defined.
